(** * Climate-Tech SAF dashboard: the data pipeline of [saf_streamlit7.py]

    A shallow embedding of the data-handling code of the dashboard script:
    [load_data] (numeric coercion, display label, GEOID), the ranking table
    of the Overview tab, the complete-case selection and regression of the
    Scatterplots tab, and the placeholder check and join of the Choropleth tab.

    The script is written against pandas, geopandas and statsmodels. The
    operations of those libraries that the script calls are modelled here as
    functions over a small data-frame type, with the behaviour the libraries
    document for the arguments the script passes. Rendering calls
    ([st.dataframe], [px.scatter], [st.plotly_chart], ...) only consume the
    tables computed here and are left out.

    Numbers: a float64 column is modelled with exact rationals ([Q]) and the
    missing value NaN with [NA]; rounding, infinities and signed zeros are
    outside the model. *)

From Stdlib Require Import QArith Ascii String.
From stdpp Require Import base strings list gmap sorting.
Close Scope Q_scope.
Open Scope string_scope.
Open Scope nat_scope.

(** ** Cells, frames and exceptions *)

(** One cell of a table: missing (NaN / None), text, a number, or an opaque
    geometry of the shapefile (identified by a number). *)
Inductive cell :=
| NA
| Str (s : string)
| Num (x : Q)
| Shape (g : nat).

(** [pd.isna] on one cell. *)
Definition isna (c : cell) : bool :=
  match c with NA => true | _ => false end.

(** A table. [columns] is the ordered list of column labels; a row maps a
    label to its cell. Frames read from a file have pairwise distinct labels
    (pandas renames repeated CSV headers); a label is repeated in [columns]
    only after a selection [df[[a, a, ...]]] that names it twice, and then
    both columns hold the same data. *)
Record DataFrame := mkFrame {
  columns : list string;
  rows : list (gmap string cell)
}.

(** The cell of row [r] under label [col]. *)
Definition at_ (r : gmap string cell) (col : string) : cell :=
  default NA (r !! col).

Inductive exn :=
| KeyError (label : string)
| ValueError (msg : string).

(** Outcome of code that may raise. *)
Inductive result (A : Type) :=
| Ok (a : A)
| Raise (e : exn).
Arguments Ok {A} a.
Arguments Raise {A} e.

#[global] Instance result_ret : MRet result := fun A a => Ok a.

#[global] Instance result_bind : MBind result := fun A B k m =>
  match m with
  | Ok a => k a
  | Raise e => Raise e
  end.

(** ** pandas operations used by the script *)

(** [label in df.columns]. *)
Definition has_column (df : DataFrame) (col : string) : bool :=
  bool_decide (col ∈ columns df).

(** [df[col]] for reading: the column as a list of cells, row by row;
    [KeyError] when the label is absent. *)
Definition getitem (df : DataFrame) (col : string) : result (list cell) :=
  if has_column df col then Ok (fmap (fun r => at_ r col) (rows df))
  else Raise (KeyError col).

(** [df[col] = values]: overwrite the column in place when the label exists,
    append it as the last column otherwise. [values] is aligned with the rows
    by position (it is always computed from columns of the same frame). *)
Definition setitem (df : DataFrame) (col : string) (values : list cell) : DataFrame :=
  {| columns := if has_column df col then columns df else columns df ++ [col];
     rows := zip_with (fun r v => <[col := v]> r) (rows df) values |}.

(** A row cut down to the labels [cols]. *)
Definition restrict (cols : list string) (r : gmap string cell) : gmap string cell :=
  filter (fun kv => kv.1 ∈ cols) r.

(** [df[[c1, ..., cn]]]: the listed columns in the listed order (a label listed
    twice is selected twice); [KeyError] on the first absent label. *)
Definition select (df : DataFrame) (cols : list string) : result DataFrame :=
  match filter (fun c => ¬ c ∈ columns df) cols with
  | missing :: _ => Raise (KeyError missing)
  | [] => Ok {| columns := cols; rows := restrict cols <$> rows df |}
  end.

(** A row with no missing cell under the labels [cols]. *)
Definition complete (cols : list string) (r : gmap string cell) : bool :=
  forallb (fun c => negb (isna (at_ r c))) cols.

(** [df.dropna()] with the optional [subset=]: keep the rows that have no
    missing cell among the labels looked at (all columns by default);
    [KeyError] when a [subset] label is absent. A new frame is returned. *)
Definition dropna (subset : option (list string)) (df : DataFrame) : result DataFrame :=
  match subset with
  | None => Ok {| columns := columns df; rows := filter (fun r => complete (columns df) r) (rows df) |}
  | Some cols =>
      match filter (fun c => ¬ c ∈ columns df) cols with
      | missing :: _ => Raise (KeyError missing)
      | [] => Ok {| columns := columns df; rows := filter (fun r => complete cols r) (rows df) |}
      end
  end.

(** [df.head(n)]. *)
Definition head (n : nat) (df : DataFrame) : DataFrame :=
  {| columns := columns df; rows := take n (rows df) |}.

(** ** Text columns *)

(** A column read with [dtype=str] (or a text attribute of the shapefile)
    holds text or a missing value; [as_text] reads a cell of such a column.
    Columns of another type are outside this reading: on numeric attributes
    the [+] of the script is a sum, and on attributes that mix text and
    numbers it raises [TypeError]. *)
Definition as_text (c : cell) : option string :=
  match c with Str s => Some s | _ => None end.

Definition of_text (o : option string) : cell :=
  match o with Some s => Str s | None => NA end.

(** Element-wise [+] of two text columns: concatenation, missing when either
    side is missing. *)
Definition str_add (a b : option string) : option string :=
  match a, b with
  | Some x, Some y => Some (x ++ y)
  | _, _ => None
  end.

(** [.astype(str)]: text stays, a missing value becomes the text [nan]. This
    is the conversion of pandas 1 and 2; pandas 3 keeps the value missing. The
    difference concerns only rows that lack a code. *)
Definition astype_str (o : option string) : string :=
  default "nan" o.

(** The padding: [n] times the digit 0. *)
Fixpoint zeros (n : nat) : string :=
  match n with
  | O => ""
  | S n' => String "0"%char (zeros n')
  end.

Definition is_sign (a : ascii) : bool :=
  bool_decide (a = "+"%char) || bool_decide (a = "-"%char).

(** [str.zfill(width)]: left-pad with the digit 0 up to [width]; a string of
    that length or longer is returned unchanged. A leading sign stays in front
    of the padding, as Python's [str.zfill] places it (pandas releases that
    pad in front of the sign differ on signed text only, which FIPS codes are
    not). *)
Definition zfill (width : nat) (s : string) : string :=
  if (width <=? String.length s)%nat then s
  else
    let pad := zeros (width - String.length s) in
    match s with
    | String a rest => if is_sign a then String a (pad ++ rest) else pad ++ s
    | EmptyString => pad
    end.

(** ** [load_data] *)

Definition numeric_cols : list string :=
  [ "gdp"; "population"; "airport_count";
    "enplanements"; "passengers"; "departures";
    "arrivals"; "freight"; "mail";
    "Sustainable_Aviation_Fuels_degree_centrality";
    "SAF_FIRM_COUNT" ].

(** [pd.to_numeric(..., errors="coerce")] on one cell. [parse_float] is
    the parser of a numeric literal, a parameter of the model: text it does
    not accept becomes missing. *)
Definition to_numeric (parse_float : string -> option Q) (c : cell) : cell :=
  match c with
  | Str s => match parse_float s with Some x => Num x | None => NA end
  | Num x => Num x
  | NA | Shape _ => NA
  end.

(** One turn of the loop [for col in numeric_cols: if col in df.columns: ...]. *)
Definition coerce_col (parse_float : string -> option Q)
    (df : DataFrame) (col : string) : DataFrame :=
  if has_column df col then
    setitem df col (fmap (fun r => to_numeric parse_float (at_ r col)) (rows df))
  else df.

Definition coerce_cols (parse_float : string -> option Q)
    (cols : list string) (df : DataFrame) : DataFrame :=
  foldl (coerce_col parse_float) df cols.

(** The GEOID of one geometry row, from its STATEFP and COUNTYFP cells:
    [(gdf["STATEFP"] + gdf["COUNTYFP"]).astype(str).str.zfill(5)]. *)
Definition geoid (statefp countyfp : cell) : cell :=
  Str (zfill 5 (astype_str (str_add (as_text statefp) (as_text countyfp)))).

(** The display label of one record:
    [df["COUNTY_NAME"] + ", " + df["STATE_NAME"]]. *)
Definition county_state (county state : cell) : cell :=
  of_text (str_add (str_add (as_text county) (Some ", ")) (as_text state)).

(** [load_data()], with the two files already read: [csv] is the result of
    [pd.read_csv(..., dtype=str)] and [shp] of [gpd.read_file(...)]. *)
Definition load_data (parse_float : string -> option Q) (csv shp : DataFrame)
    : result (DataFrame * DataFrame * list string) :=
  let df := coerce_cols parse_float numeric_cols csv in
  county ← getitem df "COUNTY_NAME";
  state ← getitem df "STATE_NAME";
  let df := setitem df "county_state" (zip_with county_state county state) in
  statefp ← getitem shp "STATEFP";
  countyfp ← getitem shp "COUNTYFP";
  let gdf := setitem shp "GEOID" (zip_with geoid statefp countyfp) in
  Ok (df, gdf, numeric_cols).

(** ** Overview tab: the ranking table *)

(** A float64 column (a column [load_data] coerced with [to_numeric])
    holds numbers or NaN; [as_float] reads a cell of such a column. *)
Definition as_float (c : cell) : option Q :=
  match c with Num x => Some x | _ => None end.

(** [nargsort(items, kind, ascending, na_position="last")] of
    [pandas.core.sorting], which [sort_values] calls for a single sort key.
    [argsort] is numpy's [ndarray.argsort(kind=kind)] on the non-missing
    values. For a descending sort pandas reverses the values, sorts them
    ascending and reverses the outcome; the missing positions are appended in
    their original order. The sort key is a float64 column: a position is
    missing when its cell holds no number. *)
Definition nargsort (argsort : list Q -> list nat) (ascending : bool)
    (items : list cell) : list nat :=
  let idx := seq 0 (length items) in
  let non_nans := omap as_float items in
  let non_nan_idx := filter (fun i => is_Some (items !! i ≫= as_float)) idx in
  let nan_idx := filter (fun i => ¬ is_Some (items !! i ≫= as_float)) idx in
  let non_nans := if ascending then non_nans else reverse non_nans in
  let non_nan_idx := if ascending then non_nan_idx else reverse non_nan_idx in
  let indexer := omap (fun k => non_nan_idx !! k) (argsort non_nans) in
  let indexer := if ascending then indexer else reverse indexer in
  indexer ++ nan_idx.

(** [df.sort_values(by, ascending=...)]: the rows taken in the order of the
    indexer; [KeyError] when the sort key is no column. *)
Definition sort_values (argsort : list Q -> list nat) (by_ : string)
    (ascending : bool) (df : DataFrame) : result DataFrame :=
  items ← getitem df by_;
  Ok {| columns := columns df;
        rows := omap (fun i => rows df !! i) (nargsort argsort ascending items) |}.

Definition centrality : string := "Sustainable_Aviation_Fuels_degree_centrality".

(** [df.sort_values(metric, ascending=False).head(n)]. *)
Definition ranking (argsort : list Q -> list nat) (metric : string) (n : nat)
    (df : DataFrame) : result DataFrame :=
  sorted ← sort_values argsort metric false df;
  Ok (head n sorted).

(** The table of the Overview tab: the ranking by SAF centrality, 25 rows,
    six columns. *)
Definition hidden_champions (argsort : list Q -> list nat) (df : DataFrame)
    : result DataFrame :=
  top ← ranking argsort centrality 25 df;
  select top [ "county_state"; "gdp"; "population"; "airport_count";
               centrality; "SAF_FIRM_COUNT" ].

(** *** numpy's default sort

    [sort_values] is called without [kind=], so numpy sorts with its default
    kind, quicksort. numpy's scalar implementation is an introsort on the
    index array [tosort]: while a segment [pl..pr] spans more than 16
    positions it is split around the median of its first, middle and last
    values, the shorter side is sorted first and the longer one is pushed on a
    stack; a segment of at most 17 elements is finished by insertion sort.
    (A segment taken up after more than [2 * floor(log2 n)] splits is sorted
    by heapsort in numpy; the model stops there, with [None].) This is the
    scalar kernel only: builds that sort float64 with SIMD kernels, and
    releases with another bound for the insertion sort, leave ties in another
    order. It is used on the sample record sets only. *)

Definition val (v : list Q) (tosort : list nat) (p : nat) : Q :=
  default 0%Q (tosort !! p ≫= fun i => v !! i).

Definition lt (a b : Q) : bool := negb (Qle_bool b a).

Definition swap (tosort : list nat) (p q : nat) : list nat :=
  match tosort !! p, tosort !! q with
  | Some a, Some b => <[q := a]> (<[p := b]> tosort)
  | _, _ => tosort
  end.

Definition swap_if (c : bool) (tosort : list nat) (p q : nat) : list nat :=
  if c then swap tosort p q else tosort.

(** [do ++pi; while (v[*pi] < vp)]. *)
Fixpoint scan_up (fuel : nat) (v : list Q) (tosort : list nat) (vp : Q) (pi : nat) : nat :=
  match fuel with
  | O => S pi
  | S fuel' =>
      if lt (val v tosort (S pi)) vp then scan_up fuel' v tosort vp (S pi) else S pi
  end.

(** [do --pj; while (vp < v[*pj])]. *)
Fixpoint scan_down (fuel : nat) (v : list Q) (tosort : list nat) (vp : Q) (pj : nat) : nat :=
  match fuel with
  | O => pred pj
  | S fuel' =>
      if lt vp (val v tosort (pred pj)) then scan_down fuel' v tosort vp (pred pj) else pred pj
  end.

(** The [for (;;)] loop of the partition; returns the index array and [pi]. *)
Fixpoint partition_loop (fuel : nat) (v : list Q) (tosort : list nat) (vp : Q)
    (pi pj : nat) : list nat * nat :=
  match fuel with
  | O => (tosort, pi)
  | S fuel' =>
      let pi := scan_up (length tosort) v tosort vp pi in
      let pj := scan_down (length tosort) v tosort vp pj in
      if (pj <=? pi)%nat then (tosort, pi)
      else partition_loop fuel' v (swap tosort pi pj) vp pi pj
  end.

(** One split of the segment [pl..pr]. *)
Definition partition (v : list Q) (tosort : list nat) (pl pr : nat) : list nat * nat :=
  let pm := pl + (pr - pl) / 2 in
  let tosort := swap_if (lt (val v tosort pm) (val v tosort pl)) tosort pm pl in
  let tosort := swap_if (lt (val v tosort pr) (val v tosort pm)) tosort pr pm in
  let tosort := swap_if (lt (val v tosort pm) (val v tosort pl)) tosort pm pl in
  let vp := val v tosort pm in
  let tosort := swap tosort pm (pr - 1) in
  let '(tosort, pi) := partition_loop (length tosort) v tosort vp pl (pr - 1) in
  (swap tosort pi (pr - 1), pi).

(** [while (pj > pl && vp < v[*pk]) { *pj-- = *pk--; }  *pj = vi;] *)
Fixpoint sift (fuel : nat) (v : list Q) (tosort : list nat) (pl : nat) (vi : nat)
    (vp : Q) (pj : nat) : list nat :=
  match fuel with
  | O => <[pj := vi]> tosort
  | S fuel' =>
      if bool_decide (pl < pj) && lt vp (val v tosort (pj - 1)) then
        sift fuel' v (<[pj := default 0 (tosort !! (pj - 1))]> tosort) pl vi vp (pj - 1)
      else <[pj := vi]> tosort
  end.

(** Insertion sort of the segment [pl..pr]. *)
Definition insertion (v : list Q) (tosort : list nat) (pl pr : nat) : list nat :=
  foldl (fun ts pi =>
           let vi := default 0 (ts !! pi) in
           sift (length ts) v ts pl vi (default 0%Q (v !! vi)) pi)
        tosort (seq (S pl) (pr - pl)).

(** The outer [while (1)] loop with its stack of pending segments. [cdepth]
    is numpy's split budget, checked when a segment is taken up ([top]), that
    is at the start and after each pop. *)
Fixpoint aquicksort_loop (fuel : nat) (v : list Q) (tosort : list nat)
    (pl pr : nat) (cdepth : Z) (stack : list (nat * nat * Z)) (top : bool)
    : option (list nat) :=
  match fuel with
  | O => None
  | S fuel' =>
      if top && bool_decide (cdepth < 0)%Z then None
      else if bool_decide (16 < pr - pl) then
        let '(tosort, pi) := partition v tosort pl pr in
        let cdepth := (cdepth - 1)%Z in
        if bool_decide (pi - pl < pr - pi) then
          aquicksort_loop fuel' v tosort pl (pi - 1) cdepth ((S pi, pr, cdepth) :: stack) false
        else
          aquicksort_loop fuel' v tosort (S pi) pr cdepth ((pl, pi - 1, cdepth) :: stack) false
      else
        let tosort := insertion v tosort pl pr in
        match stack with
        | [] => Some tosort
        | (pl', pr', cdepth') :: stack' =>
            aquicksort_loop fuel' v tosort pl' pr' cdepth' stack' true
        end
  end.

(** [aquicksort] on the identity index array: [None] where the run leaves the
    part of the algorithm modelled here. *)
Definition aquicksort (v : list Q) : option (list nat) :=
  let n := length v in
  aquicksort_loop (2 * n + 1) v (seq 0 n) 0 (n - 1) (2 * Z.of_nat (Nat.log2 n)) [] true.

(** [np.argsort(v, kind="quicksort")]. *)
Definition np_argsort_quicksort (v : list Q) : list nat :=
  default (seq 0 (length v)) (aquicksort v).

(** ** Scatterplots tab: complete cases and the regression slope *)

(** [plot_df = df[[x_col, y_col, "county_state"]].dropna()]. *)
Definition plot_df (df : DataFrame) (x_col y_col : string) : result DataFrame :=
  sel ← select df [x_col; y_col; "county_state"];
  dropna None sel.

(** What [frame[label]] evaluates to: a Series when one column carries the
    label, a sub-frame holding every column under it when several do. *)
Inductive indexed :=
| Series (name : string) (values : list cell)
| Frame (cols : list (string * list cell)).

Definition getitem_any (df : DataFrame) (col : string) : result indexed :=
  match filter (fun c => c = col) (columns df) with
  | [] => Raise (KeyError col)
  | [_] => Ok (Series col (fmap (fun r => at_ r col) (rows df)))
  | labels => Ok (Frame (fmap (fun c => (c, fmap (fun r => at_ r c) (rows df))) labels))
  end.

(** The values of a column as floats, as statsmodels converts its inputs
    ([np.asarray]); a column that holds anything but numbers is refused. *)
Definition floats (cs : list cell) : result (list Q) :=
  if forallb (fun c => bool_decide (is_Some (as_float c))) cs
  then Ok (omap as_float cs)
  else Raise (ValueError "Pandas data cast to numpy dtype of object. Check input data with np.asarray(data).").

Fixpoint all_floats (cols : list (string * list cell)) : result (list (list Q)) :=
  match cols with
  | [] => Ok []
  | kv :: rest => xs ← floats kv.2; xss ← all_floats rest; Ok (xs :: xss)
  end.

Definition indexed_floats (x : indexed) : result (list (list Q)) :=
  match x with
  | Series _ cs => xs ← floats cs; Ok [xs]
  | Frame cols => all_floats cols
  end.

(** The test of [statsmodels.tools.add_constant] for a column that already
    is a constant: [np.ptp(s) == 0.0 and np.any(s != 0.0)] (false on an empty
    column, where [np.ptp] raises and the error is caught). *)
Definition is_const (xs : list Q) : bool :=
  match xs with
  | [] => false
  | x :: _ => forallb (Qeq_bool x) xs && existsb (fun y => negb (Qeq_bool y 0)) xs
  end.

(** The design matrix [sm.add_constant(series)] for one regressor: the
    column [const] of ones is put in front unless the regressor already is a
    non-zero constant ([has_constant="skip"], the default). *)
Record design := mkDesign {
  with_const : bool;
  xname : string;
  xvalues : list Q
}.

Definition add_constant (name : string) (xs : list Q) : design :=
  {| with_const := negb (is_const xs); xname := name; xvalues := xs |}.

Definition dot (a b : list Q) : Q :=
  foldr Qplus 0%Q (zip_with Qmult a b).

(** Least squares through the pseudo-inverse, as [OLS.fit(method="pinv")]
    computes [pinv(exog) @ endog]: the least-squares solution of minimal norm.
    One column [a]. *)
Definition lstsq1 (a y : list Q) : Q :=
  if Qeq_bool (dot a a) 0 then 0%Q else (dot a y / dot a a)%Q.

(** Two columns [a], [b]: the solution of the normal equations when the
    columns are independent; when they are not, the matrix has rank at most
    one and its pseudo-inverse is its transpose divided by [a.a + b.b].
    The rank is decided exactly here. statsmodels decides it on the float64
    singular values (one below 1e-15 times the largest counts as zero), so the
    two agree on designs that are exactly singular or well conditioned and
    differ on designs that are nearly singular; elsewhere they differ by the
    rounding of the last bits. *)
Definition lstsq2 (a b y : list Q) : Q * Q :=
  let aa := dot a a in
  let ab := dot a b in
  let bb := dot b b in
  let ay := dot a y in
  let by_ := dot b y in
  let det := (aa * bb - ab * ab)%Q in
  if Qeq_bool det 0 then
    if Qeq_bool (aa + bb) 0 then (0%Q, 0%Q)
    else ((ay / (aa + bb))%Q, (by_ / (aa + bb))%Q)
  else (((bb * ay - ab * by_) / det)%Q, ((aa * by_ - ab * ay) / det)%Q).

Definition zero_size : exn :=
  ValueError "zero-size array to reduction operation maximum which has no identity".

(** [sm.OLS(endog, exog).fit().params] for a one-dimensional [endog]: the
    coefficients under the names of the design's columns. With no observation
    the constructor raises (it takes [np.max] of the empty design). The
    coefficients are exact rationals where the fit returns rounded floats, and
    the [MissingDataError] of a non-finite regressor has no counterpart: a
    cell holds no infinity. *)
Definition OLS_fit (ys : list Q) (X : design) : result (list (string * Q)) :=
  match xvalues X with
  | [] => Raise zero_size
  | _ :: _ =>
      if with_const X then
        let '(b0, b1) := lstsq2 (fmap (fun _ => 1%Q) (xvalues X)) (xvalues X) ys in
        Ok [("const", b0); (xname X, b1)]
      else Ok [(xname X, lstsq1 (xvalues X) ys)]
  end.

(** [model.params[x_col] if x_col in model.params else None], followed by the
    test [slope is not None and not pd.isnull(slope)] of the display: [None]
    when the label is no index entry, the number when it is one entry; with
    several entries under the label the value is a Series and the test
    raises. *)
Definition slope_of (params : list (string * Q)) (x_col : string) : result (option Q) :=
  match filter (fun kv => kv.1 = x_col) params with
  | [] => Ok None
  | [kv] => Ok (Some kv.2)
  | _ => Raise (ValueError "The truth value of a Series is ambiguous.")
  end.

(** The slope the Scatterplots tab displays ([None]: no slope line), from
    [plot_df] to the test before [st.markdown]. When [x_col] and [y_col]
    differ, [plot_df[x_col]] and [plot_df[y_col]] are Series and the fit has
    one regressor. When a label is listed twice in the selection the lookup
    yields a sub-frame: with a two-column [endog] statsmodels returns [params]
    as a table whose column labels are integers, so [x_col in model.params] is
    false; with several regressor columns under [x_col] and a Series [endog],
    [model.params[x_col]] is a Series and the test on it raises. The chart
    call between the fit and the display is not part of the model. *)
Definition scatter_slope (df : DataFrame) (x_col y_col : string) : result (option Q) :=
  p ← plot_df df x_col y_col;
  x ← getitem_any p x_col;
  y ← getitem_any p y_col;
  match x, y with
  | Series xn xs, Series _ ys =>
      xs ← floats xs;
      ys ← floats ys;
      params ← OLS_fit ys (add_constant xn xs);
      slope_of params x_col
  | Frame _, Series _ _ =>
      _ ← indexed_floats y;
      _ ← indexed_floats x;
      match rows p with
      | [] => Raise zero_size
      | _ :: _ => Raise (ValueError "The truth value of a Series is ambiguous.")
      end
  | _, Frame _ =>
      _ ← indexed_floats y;
      _ ← indexed_floats x;
      match rows p with
      | [] => Raise zero_size
      | _ :: _ => Ok None
      end
  end.

(** ** Choropleth tab: the catalogue, the placeholder check and the join *)

(** The dict [metric_options], in insertion order. *)
Definition metric_options : list (string * string) :=
  [ ("Sustainable_Aviation_Fuels_degree_centrality", "SAF Centrality");
    ("gdp", "GDP");
    ("population", "Population");
    ("airport_count", "Airport Count");
    ("enplanements", "Enplanements");
    ("passengers", "Passengers");
    ("departures", "Departures");
    ("arrivals", "Arrivals");
    ("freight", "Freight");
    ("mail", "Mail");
    ("biomass", "Biomass (Coming Soon)");
    ("ccs", "CCS (Coming Soon)");
    ("hydrogen", "Hydrogen (Coming Soon)") ].

(** [d[key]] on a dict. *)
Definition dict_get (d : list (string * string)) (key : string) : result string :=
  match filter (fun kv => kv.1 = key) d with
  | kv :: _ => Ok kv.2
  | [] => Raise (KeyError key)
  end.

(** Python's [needle in hay] on strings. *)
Fixpoint contains (needle hay : string) : bool :=
  String.prefix needle hay ||
  match hay with
  | EmptyString => false
  | String _ rest => contains needle rest
  end.

#[global] Instance Q_eq_dec : EqDecision Q.
Proof. solve_decision. Defined.

#[global] Instance cell_eq_dec : EqDecision cell.
Proof. solve_decision. Defined.

(** The label of a column in the merged frame: a label carried by both
    frames (the join key apart) gets the suffix of its side. *)
Definition suffixed (overlap : list string) (sfx c : string) : string :=
  if bool_decide (c ∈ overlap) then c ++ sfx else c.

(** One row of the merge: the cells of the left row, then the cells of the
    matching right row, missing where no row matches. *)
Definition join_row (overlap lcols rcols : list string)
    (l : gmap string cell) (r : option (gmap string cell)) : gmap string cell :=
  foldr (fun c m => <[suffixed overlap "_x" c := at_ l c]> m)
    (foldr (fun c m => <[suffixed overlap "_y" c := from_option (fun r => at_ r c) NA r]> m)
       ∅ rcols)
    lcols.

(** The columns the right frame contributes (all but the join key), the
    labels both frames carry, and the merged row of a left row with a
    matching right row (or with none). *)
Definition right_columns (right : DataFrame) (on : string) : list string :=
  filter (fun c => c ≠ on) (columns right).

Definition overlap (left right : DataFrame) (on : string) : list string :=
  filter (fun c => c ∈ right_columns right on) (columns left).

Definition merged_row (left right : DataFrame) (on : string)
    (l : gmap string cell) (r : option (gmap string cell)) : gmap string cell :=
  join_row (overlap left right on) (columns left) (right_columns right on) l r.

(** [left.merge(right, on=key, how="left")]: every left row in order, once
    per right row with an equal key (in the order of [right]), or once with
    the right columns missing when no right row has that key. A new frame is
    built; two missing keys count as equal. *)
Definition merge_left (left right : DataFrame) (on : string) : result DataFrame :=
  if negb (has_column right on) then Raise (KeyError on)
  else if negb (has_column left on) then Raise (KeyError on)
  else
    Ok {| columns := (suffixed (overlap left right on) "_x" <$> columns left)
                     ++ (suffixed (overlap left right on) "_y" <$> right_columns right on);
          rows :=
            l ← rows left;
            match filter (fun r => at_ l on = at_ r on) (rows right) with
            | [] => [merged_row left right on l None]
            | ms => merged_row left right on l ∘ Some <$> ms
            end |}.

(** What the page shows. *)
Inductive element :=
| info_box (msg : string)
| chart (data : nat).

(** The state of one run of the script: the data frames that exist, addressed
    by their position in [frames] (a method that returns a new frame appends
    one), and the elements put on the page. [df] and [gdf] are the frames
    [load_data] returned. *)
Record session := mkSession {
  frames : list DataFrame;
  page : list element
}.

Definition df_ref : nat := 0.
Definition gdf_ref : nat := 1.

Definition start (df gdf : DataFrame) : session :=
  {| frames := [df; gdf]; page := [] |}.

Definition new_frame (d : DataFrame) (s : session) : nat * session :=
  (length (frames s), {| frames := frames s ++ [d]; page := page s |}).

Definition show (e : element) (s : session) : session :=
  {| frames := frames s; page := page s ++ [e] |}.

Definition frame_at (s : session) (a : nat) : DataFrame :=
  default (mkFrame [] []) (frames s !! a).

(** [a.merge(b, on=key, how="left")] on frames of the session. *)
Definition merge_method (a b : nat) (on : string) (s : session) : result (nat * session) :=
  d ← merge_left (frame_at s a) (frame_at s b) on;
  Ok (new_frame d s).

(** [a.dropna(subset=[...])] ([inplace] is left at its default, False). *)
Definition dropna_method (a : nat) (subset : list string) (s : session) : result (nat * session) :=
  d ← dropna (Some subset) (frame_at s a);
  Ok (new_frame d s).

(** The Joiner:
    [gdf.merge(df, on="GEOID", how="left").dropna(subset=[selected_key])]. *)
Definition joiner (selected_key : string) (s : session) : result (nat * session) :=
  m ← merge_method gdf_ref df_ref "GEOID" s;
  dropna_method m.1 [selected_key] m.2.

Definition coming_soon_msg (label : string) : string :=
  label ++ " not available yet. This demo shows SAF, but the tool is generalizable to all climate techs.".

(** The body of the Choropleth tab below the select box. *)
Definition choropleth_tab (selected_key : string) (s : session) : result session :=
  label ← dict_get metric_options selected_key;
  if contains "Coming Soon" label then
    Ok (show (info_box (coming_soon_msg label)) s)
  else
    merged ← joiner selected_key s;
    Ok (show (chart merged.1) merged.2).

(** ** The contract of [argsort] *)

Definition val_at (v : list Q) (i : nat) : Q := default 0%Q (v !! i).

(** What every [kind] of [ndarray.argsort] guarantees: the result is a
    permutation of the positions, and the values read in that order are
    ascending. The order of positions that hold equal values is guaranteed
    for the stable kinds only. *)
Definition argsort_ok (argsort : list Q -> list nat) : Prop :=
  ∀ v, argsort v ≡ₚ seq 0 (length v)
       ∧ StronglySorted (fun i j => (val_at v i <= val_at v j)%Q) (argsort v).

#[global] Instance Qle_decision (a b : Q) : Decision (a <= b)%Q.
Proof. refine (cast_if (decide (Qle_bool a b = true))); by rewrite <- Qle_bool_iff. Defined.

(** One argsort that meets the contract: a merge sort of the positions by
    their values. *)
Definition merge_argsort (v : list Q) : list nat :=
  merge_sort (fun i j => (val_at v i <= val_at v j)%Q) (seq 0 (length v)).

(** The sort key of a record under a metric, and the order of a descending
    ranking with the missing values last: [r1] may stand before [r2]. *)
Definition key (metric : string) (r : gmap string cell) : option Q :=
  as_float (at_ r metric).

Definition ranks_before (metric : string) (r1 r2 : gmap string cell) : Prop :=
  match key metric r1, key metric r2 with
  | _, None => True
  | None, Some _ => False
  | Some a, Some b => (b <= a)%Q
  end.

(** ** Notions used in the statements *)

(** The loop of [load_data] seen from one row: [present] are the labels of the
    frame. *)
Definition coerce_row (parse_float : string -> option Q) (present cols : list string)
    (r : gmap string cell) : gmap string cell :=
  foldl (fun r c => if bool_decide (c ∈ present)
                    then <[c := to_numeric parse_float (at_ r c)]> r else r) r cols.

(** A column of floats: every cell is a number or missing. *)
Definition float_column (df : DataFrame) (c : string) : Prop :=
  Forall (fun r => at_ r c = NA ∨ is_Some (as_float (at_ r c))) (rows df).

(** The slope of the one-regressor fit on the design of [add_constant]. *)
Definition fitted_slope (xs ys : list Q) : Q :=
  if is_const xs then lstsq1 xs ys
  else (lstsq2 ((fun _ => 1%Q) <$> xs) xs ys).2.

(** The numbers of a column of a frame. *)
Definition column_floats (p : DataFrame) (c : string) : list Q :=
  omap (fun r => as_float (at_ r c)) (rows p).

(** A record that has a value for the metric, tagged with that value. *)
Definition decorate (metric : string) (r : gmap string cell) : option (Q * gmap string cell) :=
  (fun q => (q, r)) <$> key metric r.


(** ** The statements of the specification that are compared with the code *)

(** The ranking as the specification words it: sorted descending by the
    metric, ties in original row order, missing values last. [place] puts a
    record in front of the first record that ranks strictly behind it. *)
Definition strictly_before (metric : string) (r1 r2 : gmap string cell) : bool :=
  match key metric r1, key metric r2 with
  | Some a, Some b => negb (Qle_bool a b)
  | Some _, None => true
  | None, _ => false
  end.

Fixpoint place (metric : string) (r : gmap string cell) (l : list (gmap string cell))
    : list (gmap string cell) :=
  match l with
  | [] => [r]
  | r' :: l' => if strictly_before metric r' r then r' :: place metric r l' else r :: l
  end.

Definition stable_ranking (metric : string) (n : nat) (rs : list (gmap string cell))
    : list (gmap string cell) :=
  take n (foldr (place metric) [] rs).

(** The join key as the specification words it: the state code padded to 2
    characters, followed by the county code padded to 3. *)
Definition geoid_by_component (state county : string) : string :=
  zfill 2 state ++ zfill 3 county.

(** ** Sample tables *)

Definition no_float : string -> option Q := fun _ => None.

Definition sample_csv : DataFrame :=
  {| columns := ["GEOID"; "COUNTY_NAME"; "STATE_NAME"; "gdp"];
     rows := [ {[ "GEOID" := Str "01001"; "COUNTY_NAME" := Str "Autauga";
                  "STATE_NAME" := Str "Alabama"; "gdp" := Str "n/a" ]} ] |}.

Definition sample_shp : DataFrame :=
  {| columns := ["STATEFP"; "COUNTYFP"; "geometry"];
     rows := [ {[ "STATEFP" := Str "01"; "COUNTYFP" := Str "001"; "geometry" := Shape 0 ]} ] |}.

(** What [load_data] makes of them. *)
Definition sample_df : DataFrame :=
  {| columns := ["GEOID"; "COUNTY_NAME"; "STATE_NAME"; "gdp"; "county_state"];
     rows := [ {[ "GEOID" := Str "01001"; "COUNTY_NAME" := Str "Autauga";
                  "STATE_NAME" := Str "Alabama"; "gdp" := NA;
                  "county_state" := Str "Autauga, Alabama" ]} ] |}.

Definition sample_gdf : DataFrame :=
  {| columns := ["STATEFP"; "COUNTYFP"; "geometry"; "GEOID"];
     rows := [ {[ "STATEFP" := Str "01"; "COUNTYFP" := Str "001"; "geometry" := Shape 0;
                  "GEOID" := Str "01001" ]} ] |}.

(** A shapefile whose codes are not of full width. *)
Definition short_shp : DataFrame :=
  {| columns := ["STATEFP"; "COUNTYFP"; "geometry"];
     rows := [ {[ "STATEFP" := Str "1"; "COUNTYFP" := Str "1"; "geometry" := Shape 0 ]};
               {[ "STATEFP" := Str "012"; "COUNTYFP" := Str "0345"; "geometry" := Shape 1 ]} ] |}.

(** Record sets for the Scatterplots tab (after [load_data]). *)
Definition one_row_df : DataFrame :=
  {| columns := ["gdp"; centrality; "county_state"];
     rows := [ {[ "gdp" := Num 2; centrality := Num 4;
                  "county_state" := Str "Autauga, Alabama" ]} ] |}.

Definition constant_x_df : DataFrame :=
  {| columns := ["gdp"; centrality; "county_state"];
     rows := [ {[ "gdp" := Num 3; centrality := Num 1;
                  "county_state" := Str "Autauga, Alabama" ]};
               {[ "gdp" := Num 3; centrality := Num 2;
                  "county_state" := Str "Baldwin, Alabama" ]} ] |}.

Definition no_y_df : DataFrame :=
  {| columns := ["gdp"; centrality; "county_state"];
     rows := [ {[ "gdp" := Num 3; centrality := NA;
                  "county_state" := Str "Autauga, Alabama" ]} ] |}.

(** Three counties on the line [y = 2 x + 3]. *)
Definition line_df : DataFrame :=
  {| columns := ["gdp"; centrality; "county_state"];
     rows := [ {[ "gdp" := Num 1; centrality := Num 5;
                  "county_state" := Str "Autauga, Alabama" ]};
               {[ "gdp" := Num 2; centrality := Num 7;
                  "county_state" := Str "Baldwin, Alabama" ]};
               {[ "gdp" := Num 4; centrality := Num 11;
                  "county_state" := Str "Bibb, Alabama" ]} ] |}.

(** A sample instance of the number parser: unsigned decimal integers. *)
Fixpoint digits (s : string) (acc : N) : option N :=
  match s with
  | EmptyString => Some acc
  | String a rest =>
      let d := N_of_ascii a in
      if bool_decide (48 ≤ d < 58)%N then digits rest (10 * acc + (d - 48))%N else None
  end.

Definition sample_float (s : string) : option Q :=
  match s with
  | EmptyString => None
  | _ => (fun n => inject_Z (Z.of_N n)) <$> digits s 0%N
  end.

(** One county with both metrics and no county name. *)
Definition nameless_csv : DataFrame :=
  {| columns := ["GEOID"; "COUNTY_NAME"; "STATE_NAME"; "gdp"; centrality];
     rows := [ {[ "GEOID" := Str "01001"; "COUNTY_NAME" := NA;
                  "STATE_NAME" := Str "Alabama"; "gdp" := Str "10";
                  centrality := Str "5" ]} ] |}.

(** Record sets for the Overview tab. *)
Definition names18 : list string :=
  ["A"; "B"; "C"; "D"; "E"; "F"; "G"; "H"; "I"; "J"; "K"; "L"; "M"; "N"; "O"; "P"; "Q"; "R"].

(** Eighteen counties with the same centrality. *)
Definition tied_df : DataFrame :=
  {| columns := ["county_state"; centrality];
     rows := (fun name => {[ "county_state" := Str name; centrality := Num 0 ]}) <$> names18 |}.

(** The scenario of the specification: A (GDP 10, centrality 5), B (GDP 20,
    centrality 15), C (GDP 30, centrality missing). *)
Definition scenario_df : DataFrame :=
  {| columns := ["county_state"; "gdp"; centrality];
     rows := [ {[ "county_state" := Str "A"; "gdp" := Num 10; centrality := Num 5 ]};
               {[ "county_state" := Str "B"; "gdp" := Num 20; centrality := Num 15 ]};
               {[ "county_state" := Str "C"; "gdp" := Num 30; centrality := NA ]} ] |}.

(** The display labels of a list of records. *)
Definition labels (rs : list (gmap string cell)) : list cell :=
  (fun r => at_ r "county_state") <$> rs.

(** Frames for the map: three counties in the shapefile, two in the records,
    one of them without GDP. *)
Definition map_gdf : DataFrame :=
  {| columns := ["STATE_NAME"; "geometry"; "GEOID"];
     rows := [ {[ "STATE_NAME" := Str "Alabama"; "geometry" := Shape 0; "GEOID" := Str "01001" ]};
               {[ "STATE_NAME" := Str "Alabama"; "geometry" := Shape 1; "GEOID" := Str "01003" ]};
               {[ "STATE_NAME" := Str "Alabama"; "geometry" := Shape 2; "GEOID" := Str "01005" ]} ] |}.

Definition map_df : DataFrame :=
  {| columns := ["GEOID"; "STATE_NAME"; "gdp"; "county_state"];
     rows := [ {[ "GEOID" := Str "01001"; "STATE_NAME" := Str "Alabama"; "gdp" := Num 10;
                  "county_state" := Str "Autauga, Alabama" ]};
               {[ "GEOID" := Str "01003"; "STATE_NAME" := Str "Alabama"; "gdp" := NA;
                  "county_state" := Str "Baldwin, Alabama" ]} ] |}.

(** ** Further notions and sample tables *)

(** The columns of the Overview table, in the order of the selection. *)
Definition table_columns : list string :=
  [ "county_state"; "gdp"; "population"; "airport_count"; centrality; "SAF_FIRM_COUNT" ].

(** A record set with the six columns of the Overview table. *)
Definition champions_df : DataFrame :=
  {| columns := ["GEOID"; "county_state"; "gdp"; "population"; "airport_count";
                 centrality; "SAF_FIRM_COUNT"];
     rows := [ {[ "GEOID" := Str "01001"; "county_state" := Str "Autauga, Alabama";
                  "gdp" := Num 10; "population" := Num 100; "airport_count" := Num 1;
                  centrality := Num 5; "SAF_FIRM_COUNT" := Num 0 ]};
               {[ "GEOID" := Str "01003"; "county_state" := Str "Baldwin, Alabama";
                  "gdp" := Num 20; "population" := Num 200; "airport_count" := Num 2;
                  centrality := Num 15; "SAF_FIRM_COUNT" := Num 3 ]};
               {[ "GEOID" := Str "01005"; "county_state" := Str "Barbour, Alabama";
                  "gdp" := Num 30; "population" := Num 300; "airport_count" := NA;
                  centrality := NA; "SAF_FIRM_COUNT" := NA ]} ] |}.

(** [frame[col] = values] on a frame of the session, the assignment in place
    that [load_data] uses for its columns: the frame at the address is
    overwritten, and every later reader of that address sees the new column. *)
Definition assign_method (a : nat) (col : string) (values : list cell) (s : session) : session :=
  {| frames := <[a := setitem (frame_at s a) col values]> (frames s); page := page s |}.



(** * Theorems *)

(** Closed decidable facts (membership in a literal list and the like) are
    settled by evaluating the decision procedure. *)
Ltac by_compute := apply (bool_decide_unpack _); vm_compute; exact I.

(** ** Strings *)

Lemma string_length_app (s t : string) :
  String.length (s ++ t) = String.length s + String.length t.
Proof. induction s as [|a s IH]; simpl; [done | by rewrite IH]. Qed.

Lemma length_zeros (n : nat) : String.length (zeros n) = n.
Proof. induction n as [|n IH]; simpl; [done | by rewrite IH]. Qed.

Lemma zfill_length (width : nat) (s : string) :
  String.length (zfill width s) = width `max` String.length s.
Proof.
  unfold zfill. destruct (Nat.leb_spec width (String.length s)) as [Hle|Hlt]; [lia|].
  destruct s as [|a rest]; simpl in *.
  - rewrite length_zeros. lia.
  - destruct (is_sign a); simpl.
    + rewrite string_length_app, length_zeros. lia.
    + rewrite string_length_app, length_zeros. simpl. lia.
Qed.

Lemma zfill_id (width : nat) (s : string) :
  width ≤ String.length s → zfill width s = s.
Proof.
  intros Hle. unfold zfill.
  by destruct (Nat.leb_spec width (String.length s)); [|lia].
Qed.

(** ** Lists *)

Lemma filter_fmap {A B : Type} (f : A → B) (P : B → Prop) `{!∀ y, Decision (P y)}
    (l : list A) :
  filter P (f <$> l) = f <$> filter (fun x => P (f x)) l.
Proof.
  induction l as [|x l IH]; [done|]. rewrite fmap_cons, !filter_cons, IH.
  by destruct (decide (P (f x))).
Qed.

Lemma omap_fmap {A B C : Type} (f : A → B) (g : B → option C) (l : list A) :
  omap g (f <$> l) = omap (fun x => g (f x)) l.
Proof. induction l as [|x l IH]; [done|]. csimpl. by rewrite IH. Qed.

(** ** Column assignment *)

Lemma zip_with_columns {A B C D : Type} (f : B → C → D) (g : A → B) (h : A → C) (l : list A) :
  zip_with f (g <$> l) (h <$> l) = (fun r => f (g r) (h r)) <$> l.
Proof. by rewrite zip_with_fmap_l, zip_with_fmap_r, zip_with_diag. Qed.


Lemma at_insert_ne (r : gmap string cell) (c k : string) (v : cell) :
  c ≠ k → at_ (<[k := v]> r) c = at_ r c.
Proof. intros H. unfold at_. by rewrite lookup_insert_ne. Qed.

Lemma setitem_rows (df : DataFrame) (col : string) (f : gmap string cell → cell) :
  rows (setitem df col (f <$> rows df)) = (fun r => <[col := f r]> r) <$> rows df.
Proof. unfold setitem; simpl. by rewrite zip_with_fmap_r, zip_with_diag. Qed.

Lemma getitem_Ok (df : DataFrame) (col : string) (cs : list cell) :
  getitem df col = Ok cs →
  col ∈ columns df ∧ cs = (fun r => at_ r col) <$> rows df.
Proof.
  unfold getitem, has_column. case_bool_decide; [|done].
  intros [= <-]. done.
Qed.

Lemma getitem_present (df : DataFrame) (col : string) :
  col ∈ columns df → getitem df col = Ok ((fun r => at_ r col) <$> rows df).
Proof. intros Hin. unfold getitem, has_column. by rewrite bool_decide_eq_true_2. Qed.

Lemma coerce_col_columns parse_float df c :
  columns (coerce_col parse_float df c) = columns df.
Proof.
  unfold coerce_col. destruct (has_column df c) eqn:E; [|done].
  unfold setitem. cbn [columns]. by rewrite E.
Qed.

Lemma coerce_col_rows parse_float df c :
  rows (coerce_col parse_float df c) =
  (fun r => if bool_decide (c ∈ columns df)
            then <[c := to_numeric parse_float (at_ r c)]> r else r) <$> rows df.
Proof.
  unfold coerce_col, has_column. case_bool_decide.
  - by rewrite setitem_rows.
  - by rewrite list_fmap_id.
Qed.

Lemma coerce_cols_columns parse_float cols df :
  columns (coerce_cols parse_float cols df) = columns df.
Proof.
  revert df. induction cols as [|c cols IH]; intros df; [done|].
  unfold coerce_cols in *. simpl. by rewrite IH, coerce_col_columns.
Qed.

Lemma Ok_inj {A : Type} (a b : A) : Ok a = Ok b → a = b.
Proof. by intros [= ->]. Qed.

(** What [load_data] returns when it returns. *)
Lemma load_data_Ok parse_float csv shp df gdf cols :
  load_data parse_float csv shp = Ok (df, gdf, cols) →
  let coerced := coerce_cols parse_float numeric_cols csv in
  "COUNTY_NAME" ∈ columns coerced ∧ "STATE_NAME" ∈ columns coerced ∧
  "STATEFP" ∈ columns shp ∧ "COUNTYFP" ∈ columns shp ∧
  df = setitem coerced "county_state"
         ((fun r => county_state (at_ r "COUNTY_NAME") (at_ r "STATE_NAME")) <$> rows coerced) ∧
  gdf = setitem shp "GEOID"
          ((fun r => geoid (at_ r "STATEFP") (at_ r "COUNTYFP")) <$> rows shp) ∧
  cols = numeric_cols.
Proof.
  unfold load_data. intros H.
  destruct (getitem _ "COUNTY_NAME") as [county|] eqn:E1; [|done].
  destruct (getitem _ "STATE_NAME") as [state|] eqn:E2; [|done].
  destruct (getitem shp "STATEFP") as [statefp|] eqn:E3; [|done].
  destruct (getitem shp "COUNTYFP") as [countyfp|] eqn:E4; [|done].
  apply getitem_Ok in E1 as [? ->], E2 as [? ->], E3 as [? ->], E4 as [? ->].
  cbv beta iota zeta delta [mbind result_bind] in H.
  apply Ok_inj, pair_equal_spec in H as [[<- <-]%pair_equal_spec <-].
  by rewrite !zip_with_columns.
Qed.

Lemma load_data_present parse_float csv shp :
  "COUNTY_NAME" ∈ columns csv → "STATE_NAME" ∈ columns csv →
  "STATEFP" ∈ columns shp → "COUNTYFP" ∈ columns shp →
  let coerced := coerce_cols parse_float numeric_cols csv in
  load_data parse_float csv shp =
  Ok (setitem coerced "county_state"
        ((fun r => county_state (at_ r "COUNTY_NAME") (at_ r "STATE_NAME")) <$> rows coerced),
      setitem shp "GEOID"
        ((fun r => geoid (at_ r "STATEFP") (at_ r "COUNTYFP")) <$> rows shp),
      numeric_cols).
Proof.
  intros Hcn Hsn Hsf Hcf coerced. unfold load_data.
  rewrite !getitem_present by (by rewrite ?coerce_cols_columns).
  cbv beta iota zeta delta [mbind result_bind].
  by rewrite !zip_with_columns.
Qed.

(** ** C1: the join key *)

Lemma geoid_text (s c : string) :
  geoid (Str s) (Str c) = Str (zfill 5 (s ++ c)).
Proof. reflexivity. Qed.

(** C1 (as the code has it). For every geometry row that [load_data] returns,
    with text codes [s] (state) and [c] (county): the GEOID is the
    concatenation [s ++ c] left-padded with zeros to width 5, the padding
    being applied once, to the concatenation. Its length is the larger of 5
    and the length of the concatenation. When [s] has exactly 2 characters and
    [c] exactly 3 it equals the 2-padded state code followed by the 3-padded
    county code, and has length exactly 5. *)
Theorem geoid_pads_the_concatenation parse_float csv shp df gdf cols :
  load_data parse_float csv shp = Ok (df, gdf, cols) →
  Forall2
    (fun g0 g => ∀ s c : string,
       g0 !! "STATEFP" = Some (Str s) → g0 !! "COUNTYFP" = Some (Str c) →
       g !! "GEOID" = Some (Str (zfill 5 (s ++ c)))
       ∧ String.length (zfill 5 (s ++ c)) = 5 `max` (String.length s + String.length c)
       ∧ (String.length s = 2 → String.length c = 3 →
          zfill 5 (s ++ c) = geoid_by_component s c
          ∧ String.length (zfill 5 (s ++ c)) = 5))
    (rows shp) (rows gdf).
Proof.
  intros Hload. apply load_data_Ok in Hload as (_ & _ & _ & _ & _ & -> & _).
  rewrite setitem_rows. apply Forall2_fmap_r, Forall_Forall2_diag, Forall_forall.
  intros g0 _ s c Hs Hc. simpl. unfold at_. rewrite Hs, Hc. simpl.
  rewrite lookup_insert_eq, geoid_text. split; [done|].
  rewrite zfill_length, string_length_app. split; [done|].
  intros Hs2 Hc3. split; [|lia].
  unfold geoid_by_component.
  rewrite !zfill_id by (rewrite ?string_length_app; lia). done.
Qed.

Lemma geoid_pads_the_concatenation_witness :
  Forall2
    (fun g0 g => ∀ s c : string,
       g0 !! "STATEFP" = Some (Str s) → g0 !! "COUNTYFP" = Some (Str c) →
       g !! "GEOID" = Some (Str (zfill 5 (s ++ c)))
       ∧ String.length (zfill 5 (s ++ c)) = 5 `max` (String.length s + String.length c)
       ∧ (String.length s = 2 → String.length c = 3 →
          zfill 5 (s ++ c) = geoid_by_component s c
          ∧ String.length (zfill 5 (s ++ c)) = 5))
    (rows sample_shp) (rows sample_gdf).
Proof.
  apply (geoid_pads_the_concatenation no_float sample_csv sample_shp
           sample_df sample_gdf numeric_cols).
  vm_compute. reflexivity.
Defined.

(** C1 as the specification states it fails: the codes "1" and "1" give the
    GEOID "00011", not "01001", and the codes "012" and "0345" give a GEOID of
    length 7. *)
Lemma geoid_is_not_padded_by_component :
  ∃ df gdf cols,
    load_data no_float sample_csv short_shp = Ok (df, gdf, cols)
    ∧ (fun g => at_ g "GEOID") <$> rows gdf = [Str "00011"; Str "0120345"]
    ∧ geoid_by_component "1" "1" = "01001"
    ∧ String.length "0120345" ≠ 5.
Proof.
  eexists _, _, _. split; [vm_compute; reflexivity|].
  split; [vm_compute; reflexivity|]. split; [reflexivity | simpl; lia].
Qed.

(** ** C10: the coercion loop *)

Lemma coerce_cols_rows parse_float cols df :
  rows (coerce_cols parse_float cols df) =
  coerce_row parse_float (columns df) cols <$> rows df.
Proof.
  revert df. induction cols as [|c cols IH]; intros df.
  - unfold coerce_row. simpl. by rewrite list_fmap_id.
  - unfold coerce_cols in *. simpl foldl at 1. rewrite IH, coerce_col_columns, coerce_col_rows.
    rewrite <- list_fmap_compose. done.
Qed.

Lemma coerce_row_other parse_float present cols r c :
  c ∉ cols → coerce_row parse_float present cols r !! c = r !! c.
Proof.
  revert r. induction cols as [|c' cols IH]; intros r Hc; [done|].
  apply not_elem_of_cons in Hc as [Hne Hc]. unfold coerce_row in *. simpl.
  rewrite IH by done. case_bool_decide; [|done]. by rewrite lookup_insert_ne.
Qed.

Lemma coerce_row_absent parse_float present cols r c :
  c ∉ present → coerce_row parse_float present cols r !! c = r !! c.
Proof.
  revert r. induction cols as [|c' cols IH]; intros r Hc; [done|].
  unfold coerce_row in *. simpl. rewrite IH by done.
  case_bool_decide; [|done]. rewrite lookup_insert_ne; [done|]. by intros ->.
Qed.

Lemma coerce_row_coerced parse_float present cols r c :
  NoDup cols → c ∈ cols → c ∈ present →
  coerce_row parse_float present cols r !! c = Some (to_numeric parse_float (at_ r c)).
Proof.
  revert r. induction cols as [|c' cols IH]; intros r Hnd Hc Hp.
  - by apply elem_of_nil in Hc.
  - apply NoDup_cons in Hnd as [Hc' Hnd]. apply elem_of_cons in Hc as [->|Hc].
    + pose proof (coerce_row_other parse_float present cols
                    (<[c' := to_numeric parse_float (at_ r c')]> r) c' Hc') as Ho.
      unfold coerce_row in *. simpl. rewrite bool_decide_eq_true_2 by done.
      by rewrite Ho, lookup_insert_eq.
    + assert (c ≠ c') as Hne by (by intros ->).
      unfold coerce_row in *. simpl. rewrite IH by done.
      case_bool_decide; [|done]. unfold at_. by rewrite lookup_insert_ne.
Qed.

Lemma at_coerce_row parse_float present cols r c :
  NoDup cols → c ∈ cols → c ∈ present →
  at_ (coerce_row parse_float present cols r) c = to_numeric parse_float (at_ r c).
Proof. intros. unfold at_ at 1. by rewrite coerce_row_coerced. Qed.

Lemma coerce_cols_skip parse_float cols df c :
  c ∉ columns df →
  coerce_cols parse_float cols df = coerce_cols parse_float (filter (fun c' => c' ≠ c) cols) df.
Proof.
  revert df. induction cols as [|c' cols IH]; intros df Hc; [done|].
  rewrite filter_cons. case_decide as Hne.
  - unfold coerce_cols in *. simpl. apply IH. by rewrite coerce_col_columns.
  - subst c'. unfold coerce_cols in *. simpl.
    rewrite <- IH by done.
    unfold coerce_col, has_column. by rewrite bool_decide_eq_false_2.
Qed.

Lemma numeric_cols_NoDup : NoDup numeric_cols.
Proof. by_compute. Qed.

Lemma county_state_not_numeric : "county_state" ∉ numeric_cols.
Proof. by_compute. Qed.

(** C10. A whitelisted column that the CSV does not have is skipped by the
    coercion loop: [load_data] still returns (given the name and FIPS columns
    that its later lines read), the column is not created, and the loop does
    what it does without that label on the whitelist, so every other column
    is coerced (when whitelisted and present) or left as read. *)
Theorem absent_numeric_column_is_skipped parse_float csv shp col :
  col ∈ numeric_cols → col ∉ columns csv →
  "COUNTY_NAME" ∈ columns csv → "STATE_NAME" ∈ columns csv →
  "STATEFP" ∈ columns shp → "COUNTYFP" ∈ columns shp →
  ∃ df gdf,
    load_data parse_float csv shp = Ok (df, gdf, numeric_cols)
    ∧ (col ∉ columns df)
    ∧ coerce_cols parse_float numeric_cols csv
      = coerce_cols parse_float (filter (fun c => c ≠ col) numeric_cols) csv
    ∧ Forall2
        (fun r0 r => ∀ c, c ≠ "county_state" →
           r !! c = if bool_decide (c ∈ numeric_cols ∧ c ∈ columns csv)
                    then Some (to_numeric parse_float (at_ r0 c)) else r0 !! c)
        (rows csv) (rows df).
Proof.
  intros Hcol Habs Hcn Hsn Hsf Hcf.
  eexists _, _. split; [by apply load_data_present|].
  split; [|split].
  - unfold setitem, has_column. cbn [columns]. rewrite coerce_cols_columns.
    case_bool_decide; [done|]. rewrite elem_of_app, list_elem_of_singleton.
    intros [?| ->]; [done|]. by apply county_state_not_numeric.
  - by apply coerce_cols_skip.
  - rewrite setitem_rows, coerce_cols_rows, <- list_fmap_compose.
    apply Forall2_fmap_r, Forall_Forall2_diag, Forall_forall.
    intros r0 _ c Hc. unfold compose. rewrite lookup_insert_ne by done.
    case_bool_decide as Hdec.
    + destruct Hdec. by apply coerce_row_coerced; [apply numeric_cols_NoDup|..].
    + destruct (decide (c ∈ columns csv)).
      * apply coerce_row_other. naive_solver.
      * by apply coerce_row_absent.
Qed.

Lemma absent_numeric_column_is_skipped_witness :
  ∃ df gdf,
    load_data no_float sample_csv sample_shp = Ok (df, gdf, numeric_cols)
    ∧ ("population" ∉ columns df)
    ∧ coerce_cols no_float numeric_cols sample_csv
      = coerce_cols no_float (filter (fun c => c ≠ "population") numeric_cols) sample_csv
    ∧ Forall2
        (fun r0 r => ∀ c, c ≠ "county_state" →
           r !! c = if bool_decide (c ∈ numeric_cols ∧ c ∈ columns sample_csv)
                    then Some (to_numeric no_float (at_ r0 c)) else r0 !! c)
        (rows sample_csv) (rows df).
Proof.
  apply (absent_numeric_column_is_skipped no_float sample_csv sample_shp "population");
    by_compute.
Defined.

(** ** C3: the rows of the fit *)

Lemma at_restrict cols r c : c ∈ cols → at_ (restrict cols r) c = at_ r c.
Proof.
  intros Hc. unfold at_, restrict. destruct (r !! c) as [v|] eqn:E.
  - by rewrite (map_lookup_filter_Some_2 _ _ _ v).
  - rewrite map_lookup_filter_None_2; [done|]. left. done.
Qed.

Lemma complete_restrict cols r : complete cols (restrict cols r) = complete cols r.
Proof.
  unfold complete. enough (∀ l, l ⊆ cols →
    forallb (fun c => negb (isna (at_ (restrict cols r) c))) l
    = forallb (fun c => negb (isna (at_ r c))) l) as H by (by apply H).
  induction l as [|c l IH]; intros Hl; [done|]. simpl.
  rewrite at_restrict, IH; [done| |]; set_solver.
Qed.

Lemma select_Ok df cols sel :
  select df cols = Ok sel →
  cols ⊆ columns df ∧ sel = mkFrame cols (restrict cols <$> rows df).
Proof.
  unfold select. destruct (filter _ cols) as [|m ms] eqn:E; [|done].
  intros [= <-]. split; [|done].
  intros c Hc. destruct (decide (c ∈ columns df)) as [|Hn]; [done|].
  assert (c ∈ filter (fun c => ¬ c ∈ columns df) cols) as Hf by (by apply list_elem_of_filter).
  rewrite E in Hf. by apply elem_of_nil in Hf.
Qed.

Lemma select_present df cols :
  cols ⊆ columns df → select df cols = Ok (mkFrame cols (restrict cols <$> rows df)).
Proof.
  intros Hsub. unfold select.
  destruct (filter _ cols) as [|m ms] eqn:E; [done|].
  assert (m ∈ filter (fun c => ¬ c ∈ columns df) cols) as Hf by (rewrite E; left).
  apply list_elem_of_filter in Hf as [Hn Hm]. by apply Hsub in Hm.
Qed.

Lemma plot_df_Ok df x_col y_col p :
  plot_df df x_col y_col = Ok p →
  let cols := [x_col; y_col; "county_state"] in
  cols ⊆ columns df ∧
  p = mkFrame cols (restrict cols <$> filter (fun r => complete cols r) (rows df)).
Proof.
  unfold plot_df. destruct (select df _) as [sel|] eqn:E; [|done].
  apply select_Ok in E as [Hsub ->].
  cbv beta iota zeta delta [mbind result_bind dropna]. simpl columns. simpl rows.
  intros [= <-]. split; [done|]. f_equal.
  rewrite filter_fmap. f_equal. apply list_filter_iff.
  intros r. by rewrite <- (complete_restrict [x_col; y_col; "county_state"] r).
Qed.

Lemma complete_three r a b c :
  complete [a; b; c] r ↔ at_ r a ≠ NA ∧ at_ r b ≠ NA ∧ at_ r c ≠ NA.
Proof.
  assert (∀ v, negb (isna v) ↔ v ≠ NA) as H by (intros []; simpl; naive_solver).
  unfold complete; simpl. rewrite !andb_True, !H.
  split; [intros (? & ? & ? & _) | intros (? & ? & ?)]; done.
Qed.

(** C3 (as the code has it). The rows of the fit are, in their original
    order, exactly the rows of the record set in which the X value, the Y value
    and the display label [county_state] are all present; the X and Y values
    are carried over unchanged (nothing is imputed). *)
Theorem plot_df_keeps_rows_complete_in_all_three df x_col y_col p :
  plot_df df x_col y_col = Ok p →
  Forall2
    (fun r r' => at_ r' x_col = at_ r x_col ∧ at_ r' y_col = at_ r y_col
                 ∧ at_ r' "county_state" = at_ r "county_state")
    (filter (fun r => at_ r x_col ≠ NA ∧ at_ r y_col ≠ NA ∧ at_ r "county_state" ≠ NA)
            (rows df))
    (rows p).
Proof.
  intros Hp. apply plot_df_Ok in Hp as [_ ->]. simpl.
  rewrite (list_filter_iff _ (fun r => complete [x_col; y_col; "county_state"] r))
    by (intros r; symmetry; apply complete_three).
  apply Forall2_fmap_r, Forall_Forall2_diag, Forall_forall. intros r _.
  simpl. rewrite !at_restrict; [done|set_solver..].
Qed.

Lemma plot_df_keeps_rows_complete_in_all_three_witness :
  Forall2
    (fun r r' => at_ r' "gdp" = at_ r "gdp" ∧ at_ r' centrality = at_ r centrality
                 ∧ at_ r' "county_state" = at_ r "county_state")
    (filter (fun r => at_ r "gdp" ≠ NA ∧ at_ r centrality ≠ NA ∧ at_ r "county_state" ≠ NA)
            (rows line_df))
    (rows line_df).
Proof.
  apply (plot_df_keeps_rows_complete_in_all_three line_df "gdp" centrality line_df).
  vm_compute. reflexivity.
Defined.

(** C3 as the specification states it fails: a county whose X and Y values are
    both present is left out of the fit when its county name is missing. *)
Lemma row_with_x_and_y_is_excluded :
  ∃ df gdf cols p,
    load_data sample_float nameless_csv sample_shp = Ok (df, gdf, cols)
    ∧ (fun r => (at_ r "gdp", at_ r centrality, at_ r "county_state")) <$> rows df
      = [(Num 10, Num 5, NA)]
    ∧ plot_df df "gdp" centrality = Ok p
    ∧ rows p = [].
Proof.
  eexists _, _, _, _. split; [vm_compute; reflexivity|].
  split; [vm_compute; reflexivity|]. split; vm_compute; reflexivity.
Qed.

(** ** C2: degenerate fits *)

Lemma to_numeric_float parse_float c :
  to_numeric parse_float c = NA ∨ is_Some (as_float (to_numeric parse_float c)).
Proof.
  destruct c as [|s|x|g]; simpl; eauto.
  destruct (parse_float s); simpl; eauto.
Qed.

(** The columns [load_data] coerced are columns of floats. *)
Lemma load_data_float_column parse_float csv shp df gdf cols c :
  load_data parse_float csv shp = Ok (df, gdf, cols) →
  c ∈ numeric_cols → c ∈ columns csv → float_column df c.
Proof.
  intros Hload Hc Hin. apply load_data_Ok in Hload as (_ & _ & _ & _ & -> & _ & _).
  unfold float_column. rewrite setitem_rows, coerce_cols_rows, <- list_fmap_compose.
  apply Forall_fmap, Forall_forall. intros r _. unfold compose. cbv beta.
  rewrite !at_insert_ne by (intros ->; by apply county_state_not_numeric).
  rewrite !at_coerce_row by (by try apply numeric_cols_NoDup).
  apply to_numeric_float.
Qed.

Lemma floats_Ok cs :
  Forall (fun c => is_Some (as_float c)) cs → floats cs = Ok (omap as_float cs).
Proof.
  intros H. unfold floats.
  destruct (forallb _ cs) eqn:E; [done|]. exfalso.
  apply (Forall_impl _ (fun c => bool_decide (is_Some (as_float c)))) in H;
    [|intros c Hc; by apply bool_decide_pack].
  apply forallb_True in H. by rewrite E in H.
Qed.

Lemma plot_df_floats df x_col y_col p c :
  plot_df df x_col y_col = Ok p →
  c ∈ [x_col; y_col; "county_state"] → float_column df c →
  floats ((fun r => at_ r c) <$> rows p) = Ok (column_floats p c).
Proof.
  intros Hp Hc Hf. apply plot_df_Ok in Hp as [_ ->].
  unfold column_floats. cbn [rows]. rewrite floats_Ok.
  - by rewrite omap_fmap.
  - apply Forall_fmap, Forall_fmap, Forall_forall. intros r Hr.
    unfold compose. cbv beta.
    apply list_elem_of_filter in Hr as [Hcomp Hr].
    rewrite at_restrict by done.
    unfold float_column in Hf. rewrite Forall_forall in Hf.
    destruct (Hf r Hr) as [Hna|]; [|done]. exfalso.
    apply (proj1 (complete_three r x_col y_col "county_state")) in Hcomp
      as (Hx & Hy & Hcs).
    apply elem_of_cons in Hc as [->|Hc]; [done|].
    apply elem_of_cons in Hc as [->|Hc]; [done|].
    apply list_elem_of_singleton in Hc as ->. done.
Qed.

Lemma floats_length cs xs : floats cs = Ok xs → length xs = length cs.
Proof.
  unfold floats. destruct (forallb _ cs) eqn:E; [|done]. intros [= <-].
  apply Is_true_true_2, forallb_True in E.
  induction E as [|c cs Hc _ IH]; [done|].
  apply bool_decide_unpack in Hc as [q Hq]. csimpl. rewrite Hq. csimpl. by rewrite IH.
Qed.

Lemma column_floats_length df x_col y_col p c :
  plot_df df x_col y_col = Ok p →
  c ∈ [x_col; y_col; "county_state"] → float_column df c →
  length (column_floats p c) = length (rows p).
Proof.
  intros Hp Hc Hf. pose proof (plot_df_floats _ _ _ _ _ Hp Hc Hf) as H.
  apply floats_length in H. by rewrite length_fmap in H.
Qed.

Lemma numeric_col_names c :
  c ∈ numeric_cols → c ≠ "county_state" ∧ c ≠ "const".
Proof.
  intros Hc. split; intros ->; revert Hc; by_compute.
Qed.

Lemma plot_df_columns df x_col y_col p :
  plot_df df x_col y_col = Ok p → columns p = [x_col; y_col; "county_state"].
Proof. intros Hp. by apply plot_df_Ok in Hp as [_ ->]. Qed.

Lemma getitem_any_x (p : DataFrame) (x_col y_col : string) :
  columns p = [x_col; y_col; "county_state"] →
  x_col ≠ y_col → x_col ≠ "county_state" →
  getitem_any p x_col = Ok (Series x_col ((fun r => at_ r x_col) <$> rows p)).
Proof.
  intros Hcols Hxy Hxc. unfold getitem_any. rewrite Hcols.
  rewrite !filter_cons, filter_nil, decide_True by done.
  by rewrite !decide_False by done.
Qed.

Lemma getitem_any_y (p : DataFrame) (x_col y_col : string) :
  columns p = [x_col; y_col; "county_state"] →
  x_col ≠ y_col → y_col ≠ "county_state" →
  getitem_any p y_col = Ok (Series y_col ((fun r => at_ r y_col) <$> rows p)).
Proof.
  intros Hcols Hxy Hyc. unfold getitem_any. rewrite Hcols.
  rewrite !filter_cons, filter_nil, decide_False by done.
  rewrite decide_True by done. by rewrite decide_False by done.
Qed.

(** The outcome of the tab for two distinct numeric metrics. *)
Lemma scatter_slope_distinct df x_col y_col p :
  x_col ∈ numeric_cols → y_col ∈ numeric_cols → x_col ≠ y_col →
  float_column df x_col → float_column df y_col →
  plot_df df x_col y_col = Ok p →
  scatter_slope df x_col y_col =
  match rows p with
  | [] => Raise zero_size
  | _ :: _ => Ok (Some (fitted_slope (column_floats p x_col) (column_floats p y_col)))
  end.
Proof.
  intros Hx Hy Hne Hfx Hfy Hp.
  apply numeric_col_names in Hx as [Hxc Hxk], Hy as [Hyc _].
  pose proof (plot_df_floats _ _ _ _ x_col Hp ltac:(left) Hfx) as Fx.
  pose proof (plot_df_floats _ _ _ _ y_col Hp ltac:(right; left) Hfy) as Fy.
  pose proof (column_floats_length _ _ _ _ x_col Hp ltac:(left) Hfx) as Lx.
  pose proof (plot_df_columns _ _ _ _ Hp) as Hcols.
  unfold scatter_slope. rewrite Hp.
  cbv beta iota zeta delta [mbind result_bind].
  rewrite (getitem_any_x p x_col y_col), (getitem_any_y p x_col y_col) by done.
  cbv beta iota. rewrite Fx, Fy. cbv beta iota.
  unfold OLS_fit, add_constant. cbn [xvalues with_const xname].
  destruct (rows p) as [|r rs]; destruct (column_floats p x_col) as [|x xs] eqn:E;
    try discriminate; [done|].
  unfold fitted_slope. destruct (is_const (x :: xs)); cbn [negb]; cbv iota.
  - unfold slope_of. rewrite filter_cons, filter_nil, decide_True by done. done.
  - destruct (lstsq2 _ _ _) as [b0 b1]. unfold slope_of.
    rewrite !filter_cons, filter_nil.
    rewrite decide_False by (cbn [fst]; congruence).
    by rewrite decide_True by done.
Qed.

Lemma dot_zero_l (a b : list Q) : Forall (fun x => x == 0)%Q a → (dot a b == 0)%Q.
Proof.
  intros H. revert b. induction H as [|x a Hx _ IH]; intros [|y b]; try reflexivity.
  unfold dot in *. simpl. rewrite IH, Hx. ring.
Qed.

Lemma dot_zero_r (a b : list Q) : Forall (fun x => x == 0)%Q b → (dot a b == 0)%Q.
Proof.
  intros H. revert a. induction H as [|y b Hy _ IH]; intros [|x a]; try reflexivity.
  unfold dot in *. simpl. rewrite IH, Hy. ring.
Qed.

Lemma dot_ones_pos (xs : list Q) :
  xs ≠ [] → (0 < dot ((fun _ => 1) <$> xs) ((fun _ => 1) <$> xs))%Q.
Proof.
  assert (∀ l : list Q, 0 <= dot ((fun _ => 1) <$> l) ((fun _ => 1) <$> l))%Q as Hnn.
  { induction l as [|x l IH]; [done|]. unfold dot in *. simpl.
    apply (Qplus_le_compat 0 (1 * 1) 0); [done | exact IH]. }
  destruct xs as [|x xs]; [done|]. intros _. unfold dot. simpl.
  apply (Qplus_lt_le_compat 0 (1 * 1) 0); [done | apply Hnn].
Qed.

Lemma existsb_nonzero (xs : list Q) :
  Forall (fun x => x == 0)%Q xs → existsb (fun y => negb (Qeq_bool y 0)) xs = false.
Proof.
  induction 1 as [|x xs Hx _ IH]; [done|]. cbn [existsb]. rewrite IH.
  apply Qeq_bool_iff in Hx. by rewrite Hx.
Qed.

(** With a regressor that is zero throughout, the column of ones takes the
    whole fit: the slope is zero. *)
Lemma fitted_slope_zero_column (xs ys : list Q) :
  xs ≠ [] → Forall (fun x => x == 0)%Q xs → (fitted_slope xs ys == 0)%Q.
Proof.
  intros Hne Hz. unfold fitted_slope.
  assert (is_const xs = false) as ->.
  { destruct xs as [|x xs]; [done|]. unfold is_const.
    rewrite existsb_nonzero by done. apply andb_false_r. }
  unfold lstsq2.
  pose proof (dot_zero_r ((fun _ => 1%Q) <$> xs) xs Hz) as Hab.
  pose proof (dot_zero_l xs xs Hz) as Hbb.
  pose proof (dot_zero_l xs ys Hz) as Hby.
  pose proof (dot_ones_pos xs Hne) as Haa.
  destruct (Qeq_bool _ 0) eqn:Edet.
  - destruct (Qeq_bool (_ + _) 0) eqn:Esum; simpl; [reflexivity|].
    rewrite Hby. unfold Qdiv. ring.
  - apply Qeq_bool_neq in Edet. exfalso. apply Edet. rewrite Hab, Hbb. ring.
Qed.

(** A regressor with fewer than two values, or with equal values throughout,
    is a non-zero constant or zero throughout. *)
Lemma degenerate_regressor (xs : list Q) :
  xs ≠ [] →
  length xs < 2 ∨ (∀ a b, a ∈ xs → b ∈ xs → (a == b)%Q) →
  is_const xs = true ∨ Forall (fun x => x == 0)%Q xs.
Proof.
  intros Hne Hdeg.
  assert (∀ a b, a ∈ xs → b ∈ xs → (a == b)%Q) as Hc.
  { destruct Hdeg as [Hlen|]; [|done].
    destruct xs as [|x [|x' xs]]; simpl in Hlen; [done| |lia].
    intros a b ->%list_elem_of_singleton ->%list_elem_of_singleton. reflexivity. }
  destruct xs as [|x xs]; [done|].
  destruct (Qeq_bool x 0) eqn:E.
  - right. apply Qeq_bool_iff in E. apply Forall_forall. intros y Hy.
    rewrite <- E. apply Hc; [done|left].
  - left. simpl. rewrite E. simpl. rewrite andb_true_r.
    rewrite (proj2 (Qeq_bool_iff x x)) by reflexivity. simpl.
    apply Is_true_true, forallb_True, Forall_forall. intros y Hy.
    apply Is_true_true, Qeq_bool_iff, Hc; [left | by right].
Qed.

(** C2 (as the code has it). For two distinct numeric metrics and every
    record set with at least one complete-case row, the tab raises nothing
    and displays a slope, also when there are fewer than two such rows or X
    is constant: for X a non-zero constant no intercept column is added and
    the slope is that of the fit through the origin; for X zero throughout
    the slope is zero. *)
Theorem degenerate_fit_displays_a_slope df x_col y_col p :
  x_col ∈ numeric_cols → y_col ∈ numeric_cols → x_col ≠ y_col →
  float_column df x_col → float_column df y_col →
  plot_df df x_col y_col = Ok p →
  rows p ≠ [] →
  ∃ q, scatter_slope df x_col y_col = Ok (Some q)
       ∧ (length (column_floats p x_col) < 2
          ∨ (∀ a b, a ∈ column_floats p x_col → b ∈ column_floats p x_col → (a == b)%Q) →
          (is_const (column_floats p x_col) = true
           ∧ q = lstsq1 (column_floats p x_col) (column_floats p y_col))
          ∨ (Forall (fun x => x == 0)%Q (column_floats p x_col) ∧ (q == 0)%Q)).
Proof.
  intros Hx Hy Hne Hfx Hfy Hp Hrows.
  pose proof (column_floats_length _ _ _ _ x_col Hp ltac:(left) Hfx) as Lx.
  rewrite (scatter_slope_distinct _ _ _ p) by done.
  destruct (rows p) as [|r rs] eqn:Er; [done|].
  eexists. split; [reflexivity|]. intros Hdeg.
  assert (column_floats p x_col ≠ []) as Hxs.
  { intros E. rewrite E in Lx. done. }
  destruct (degenerate_regressor _ Hxs Hdeg) as [Hc|Hz].
  - left. split; [done|]. unfold fitted_slope. by rewrite Hc.
  - right. split; [done|]. by apply fitted_slope_zero_column.
Qed.

(** With no complete-case row the fit raises. *)
Lemma scatter_slope_without_rows df x_col y_col p :
  x_col ∈ numeric_cols → y_col ∈ numeric_cols → x_col ≠ y_col →
  float_column df x_col → float_column df y_col →
  plot_df df x_col y_col = Ok p →
  rows p = [] →
  scatter_slope df x_col y_col = Raise zero_size.
Proof.
  intros Hx Hy Hne Hfx Hfy Hp Hrows.
  rewrite (scatter_slope_distinct _ _ _ p) by done. by rewrite Hrows.
Qed.

Lemma degenerate_fit_displays_a_slope_witness :
  ∃ q, scatter_slope one_row_df "gdp" centrality = Ok (Some q)
       ∧ (length (column_floats one_row_df "gdp") < 2
          ∨ (∀ a b, a ∈ column_floats one_row_df "gdp" →
                    b ∈ column_floats one_row_df "gdp" → (a == b)%Q) →
          (is_const (column_floats one_row_df "gdp") = true
           ∧ q = lstsq1 (column_floats one_row_df "gdp") (column_floats one_row_df centrality))
          ∨ (Forall (fun x => x == 0)%Q (column_floats one_row_df "gdp") ∧ (q == 0)%Q)).
Proof.
  apply (degenerate_fit_displays_a_slope one_row_df "gdp" centrality one_row_df);
    first [by_compute | done | vm_compute; reflexivity].
Defined.

(** C2 as the specification states it fails: with a single complete-case row
    ([x = 2], [y = 4]) the tab displays the slope 2, and with X constant
    ([x = 3] twice, [y = 1] and [2]) it displays the slope 1/2. *)
Lemma degenerate_fit_is_not_reported_unavailable :
  scatter_slope one_row_df "gdp" centrality = Ok (Some (8 # 4)%Q)
  ∧ scatter_slope constant_x_df "gdp" centrality = Ok (Some (9 # 18)%Q).
Proof. split; vm_compute; reflexivity. Qed.

(** Where no row has both values the run stops with the exception of the
    statsmodels constructor. *)
Lemma fit_without_complete_rows_raises :
  scatter_slope no_y_df "gdp" centrality = Raise zero_size.
Proof. vm_compute. reflexivity. Qed.

(** The fit on exact data: three counties on [y = 2 x + 3] give the slope 2. *)
Lemma fit_on_a_line : scatter_slope line_df "gdp" centrality = Ok (Some (28 # 14)%Q).
Proof. vm_compute. reflexivity. Qed.

(** ** C8: the same metric on both axes *)

(** With [x_col = y_col] the selection lists the label twice, so
    [plot_df[x_col]] is a two-column frame, not a Series. *)
Lemma getitem_any_twice (p : DataFrame) (x_col : string) :
  columns p = [x_col; x_col; "county_state"] → x_col ≠ "county_state" →
  getitem_any p x_col =
  Ok (Frame [ (x_col, (fun r => at_ r x_col) <$> rows p);
              (x_col, (fun r => at_ r x_col) <$> rows p) ]).
Proof.
  intros Hcols Hxc. unfold getitem_any. rewrite Hcols.
  rewrite !filter_cons, filter_nil, !decide_True by done.
  by rewrite decide_False by done.
Qed.

(** Whatever the data, no slope is displayed when the two metrics are the
    same one. *)
Lemma same_metric_no_slope df x_col p :
  x_col ∈ numeric_cols → float_column df x_col →
  plot_df df x_col x_col = Ok p → rows p ≠ [] →
  scatter_slope df x_col x_col = Ok None.
Proof.
  intros Hx Hfx Hp Hrows. apply numeric_col_names in Hx as [Hxc _].
  pose proof (plot_df_floats _ _ _ _ x_col Hp ltac:(left) Hfx) as Fx.
  pose proof (plot_df_columns _ _ _ _ Hp) as Hcols.
  unfold scatter_slope. rewrite Hp.
  cbv beta iota zeta delta [mbind result_bind].
  rewrite (getitem_any_twice p x_col) by done.
  cbv beta iota. unfold indexed_floats, all_floats. cbn [snd].
  rewrite Fx. cbv beta iota zeta delta [mbind result_bind].
  by destruct (rows p).
Qed.

(** C8, evaluated: for three counties with distinct GDP values and GDP
    selected on both axes, the tab displays no slope. *)
Lemma same_metric_on_both_axes : scatter_slope line_df "gdp" "gdp" = Ok None.
Proof. vm_compute. reflexivity. Qed.

(** ** Positions and lookups *)

Lemma omap_lookup_filter_seq {A : Type} (P : A → Prop) `{!∀ x, Decision (P x)}
    (Pi : nat → Prop) `{!∀ i, Decision (Pi i)} (pre l : list A) :
  (∀ i x, ((pre ++ l)%list) !! i = Some x → (Pi i ↔ P x)) →
  omap (fun i => ((pre ++ l)%list) !! i) (filter Pi (seq (length pre) (length l))) = filter P l.
Proof.
  revert pre. induction l as [|x l IH]; intros pre HP; [done|].
  assert (((pre ++ x :: l)%list) !! length pre = Some x) as Hx by (by apply list_lookup_middle).
  cbn [length seq]. rewrite !filter_cons.
  assert (omap (fun i => ((pre ++ x :: l)%list) !! i) (filter Pi (seq (S (length pre)) (length l)))
          = filter P l) as Hrest.
  { specialize (IH (pre ++ [x])%list). rewrite <- app_assoc in IH. cbn [app] in IH.
    rewrite length_app in IH. cbn [length] in IH.
    replace (length pre + 1) with (S (length pre)) in IH by lia. by apply IH. }
  destruct (decide (Pi (length pre))) as [Hi|Hi], (decide (P x)) as [Hpx|Hpx].
  - csimpl. by rewrite Hx, Hrest.
  - exfalso. by apply Hpx, (HP _ _ Hx).
  - exfalso. by apply Hi, (HP _ _ Hx).
  - done.
Qed.

Lemma omap_lookup_filter {A : Type} (P : A → Prop) `{!∀ x, Decision (P x)}
    (Pi : nat → Prop) `{!∀ i, Decision (Pi i)} (l : list A) :
  (∀ i x, l !! i = Some x → (Pi i ↔ P x)) →
  omap (fun i => l !! i) (filter Pi (seq 0 (length l))) = filter P l.
Proof. intros HP. by apply (omap_lookup_filter_seq P Pi [] l). Qed.

Lemma filter_all {A : Type} (l : list A) : filter (fun _ => True) l = l.
Proof. induction l as [|x l IH]; [done|]. by rewrite filter_cons, decide_True, IH. Qed.

Lemma omap_lookup_seq {A : Type} (l : list A) :
  omap (fun i => l !! i) (seq 0 (length l)) = l.
Proof.
  rewrite <- (filter_all (seq 0 (length l))).
  rewrite (omap_lookup_filter (fun _ => True) (fun _ => True)) by done.
  apply filter_all.
Qed.

Lemma omap_reverse {A B : Type} (f : A → option B) (l : list A) :
  omap f (reverse l) = reverse (omap f l).
Proof.
  induction l as [|x l IH]; [done|].
  rewrite reverse_cons, omap_app, IH. csimpl.
  destruct (f x); csimpl; [by rewrite reverse_cons | by rewrite app_nil_r].
Qed.

Lemma lookup_omap_valid {A B : Type} (g : A → option B) (l : list A) (k : nat) :
  Forall (fun i => is_Some (g i)) l → omap g l !! k = l !! k ≫= g.
Proof.
  intros H. revert k. induction H as [|i l [b Hb] _ IH]; intros k; [done|].
  csimpl. rewrite Hb. destruct k as [|k]; csimpl; [done|]. apply IH.
Qed.

Lemma omap_omap_lookup {A B : Type} (g : A → option B) (l : list A) (perm : list nat) :
  Forall (fun i => is_Some (g i)) l →
  omap g (omap (fun k => l !! k) perm) = omap (fun k => omap g l !! k) perm.
Proof.
  intros H. induction perm as [|k perm IH]; [done|]. csimpl.
  rewrite (lookup_omap_valid g l k H).
  destruct (l !! k) as [i|]; csimpl; [|done].
  destruct (g i); csimpl; by rewrite IH.
Qed.

Lemma StronglySorted_omap {A B : Type} (R : relation A) (R' : relation B)
    (f : A → option B) (l : list A) :
  (∀ i j x y, i ∈ l → j ∈ l → R i j → f i = Some x → f j = Some y → R' x y) →
  StronglySorted R l → StronglySorted R' (omap f l).
Proof.
  intros HR Hs. induction Hs as [|i l _ IH Hi]; csimpl; [constructor|].
  assert (StronglySorted R' (omap f l)) as IH'.
  { apply IH. intros a b x y Ha Hb. apply HR; by right. }
  destruct (f i) as [x|] eqn:Ex; [|done]. constructor; [done|].
  apply Forall_forall. intros y Hy. apply list_elem_of_omap in Hy as (j & Hj & Ey).
  rewrite Forall_forall in Hi. apply (HR i j); [left|by right|by apply Hi|done..].
Qed.

Lemma StronglySorted_all {A : Type} (R : relation A) (l : list A) :
  (∀ x y, x ∈ l → y ∈ l → R x y) → StronglySorted R l.
Proof.
  induction l as [|x l IH]; intros H; constructor.
  - apply IH. intros a b Ha Hb. apply H; by right.
  - apply Forall_forall. intros y Hy. apply H; [left|by right].
Qed.

Lemma StronglySorted_reverse {A : Type} (R : relation A) (l : list A) :
  StronglySorted R l → StronglySorted (flip R) (reverse l).
Proof.
  induction 1 as [|x l _ IH Hx]; [rewrite reverse_nil; constructor|].
  rewrite reverse_cons. apply StronglySorted_app_2; [|done|repeat constructor].
  intros a b Ha ->%list_elem_of_singleton. rewrite elem_of_reverse in Ha.
  rewrite Forall_forall in Hx. unfold flip. by apply Hx.
Qed.

(** ** The ranking under the contract of [argsort] *)

Lemma decorate_values metric (rs : list (gmap string cell)) :
  (omap (decorate metric) rs).*1 = omap (key metric) rs.
Proof.
  induction rs as [|r rs IH]; [done|]. csimpl. unfold decorate at 1.
  destruct (key metric r); csimpl; by rewrite IH.
Qed.

Lemma decorate_rows metric (rs : list (gmap string cell)) :
  (omap (decorate metric) rs).*2 = filter (fun r => is_Some (key metric r)) rs.
Proof.
  induction rs as [|r rs IH]; [done|]. csimpl. rewrite filter_cons. unfold decorate at 1.
  destruct (decide (is_Some (key metric r))) as [[q E]|E].
  - rewrite E. csimpl. by rewrite IH.
  - destruct (key metric r); [by destruct E|done].
Qed.

Lemma decorate_key metric (rs : list (gmap string cell)) q r :
  (q, r) ∈ omap (decorate metric) rs → key metric r = Some q.
Proof.
  intros H. apply list_elem_of_omap in H as (r' & _ & H). unfold decorate in H.
  destruct (key metric r') as [q'|] eqn:E; [|done]. csimpl in H. by injection H as -> ->.
Qed.

Lemma fmap_omap_lookup {A B : Type} (f : A → B) (l : list A) (perm : list nat) :
  f <$> omap (fun k => l !! k) perm = omap (fun k => (f <$> l) !! k) perm.
Proof.
  rewrite list_fmap_omap. induction perm as [|k perm IH]; [done|]. csimpl.
  rewrite list_lookup_fmap. destruct (l !! k); csimpl; by rewrite IH.
Qed.

Section Ranking.
Variable argsort : list Q → list nat.
Hypothesis argsort_contract : argsort_ok argsort.

(** Reading a list of value-tagged items in the order [argsort] gives for
    their values: a permutation of the items, ascending by value. *)
Lemma argsort_items {A : Type} (D : list (Q * A)) :
  let S := omap (fun k => D !! k) (argsort D.*1) in
  S ≡ₚ D ∧ StronglySorted (fun a b => (a.1 <= b.1)%Q) S.
Proof.
  destruct (argsort_contract D.*1) as [Hperm Hsorted]. split.
  - rewrite Hperm, length_fmap. by rewrite omap_lookup_seq.
  - eapply StronglySorted_omap; [|exact Hsorted].
    intros i j x y _ _ Hij Hx Hy. cbv beta in Hij. unfold val_at in Hij.
    by rewrite !list_lookup_fmap, Hx, Hy in Hij.
Qed.

(** The rows of a descending [sort_values]: the records that have a value,
    in the reverse of the ascending order [argsort] gives for their reversed
    list, followed by the records without a value in their original order. *)
Lemma sort_values_rows metric (rs : list (gmap string cell)) :
  let D := reverse (omap (decorate metric) rs) in
  omap (fun i => rs !! i)
       (nargsort argsort false ((fun r => at_ r metric) <$> rs))
  = (reverse (omap (fun k => D !! k) (argsort D.*1)).*2
     ++ filter (fun r => ¬ is_Some (key metric r)) rs)%list.
Proof.
  intros D. unfold nargsort. cbv zeta. rewrite length_fmap, omap_app. f_equal.
  - rewrite omap_reverse. f_equal.
    rewrite omap_omap_lookup.
    2:{ apply Forall_forall. intros i Hi.
        rewrite elem_of_reverse in Hi. apply list_elem_of_filter in Hi as [_ Hi].
        apply elem_of_seq in Hi. apply lookup_lt_is_Some. lia. }
    rewrite fmap_omap_lookup. unfold D.
    rewrite !fmap_reverse, decorate_values, decorate_rows, omap_reverse, omap_fmap.
    rewrite (omap_lookup_filter (fun r => is_Some (key metric r))
               (fun i => is_Some (((fun r => at_ r metric) <$> rs) !! i ≫= as_float))).
    + done.
    + intros i r Hr. rewrite list_lookup_fmap, Hr. done.
  - apply omap_lookup_filter. intros i r Hr. rewrite list_lookup_fmap, Hr. done.
Qed.

Lemma sort_values_present metric df :
  metric ∈ columns df →
  let D := reverse (omap (decorate metric) (rows df)) in
  sort_values argsort metric false df =
  Ok (mkFrame (columns df)
        (reverse (omap (fun k => D !! k) (argsort D.*1)).*2
         ++ filter (fun r => ¬ is_Some (key metric r)) (rows df))).
Proof.
  intros Hm D. unfold sort_values. rewrite getitem_present by done.
  cbv beta iota zeta delta [mbind result_bind]. by rewrite sort_values_rows.
Qed.

Lemma ranking_present metric n df :
  metric ∈ columns df →
  let D := reverse (omap (decorate metric) (rows df)) in
  ranking argsort metric n df =
  Ok (mkFrame (columns df)
        (take n (reverse (omap (fun k => D !! k) (argsort D.*1)).*2
                 ++ filter (fun r => ¬ is_Some (key metric r)) (rows df)))).
Proof.
  intros Hm D. unfold ranking. rewrite sort_values_present by done.
  cbv beta iota zeta delta [mbind result_bind]. done.
Qed.

(** The records with a value, in the order of the ranking. *)
Lemma present_part metric (rs : list (gmap string cell)) :
  let D := reverse (omap (decorate metric) rs) in
  let present := reverse (omap (fun k => D !! k) (argsort D.*1)).*2 in
  present ≡ₚ filter (fun r => is_Some (key metric r)) rs
  ∧ StronglySorted (ranks_before metric) present
  ∧ Forall (fun r => is_Some (key metric r)) present.
Proof.
  intros D present. destruct (argsort_items D) as [Hperm Hsorted].
  set (S := omap (fun k => D !! k) (argsort D.*1)) in *.
  assert (∀ q r, (q, r) ∈ S → key metric r = Some q) as Hkey.
  { intros q r H. rewrite Hperm in H. unfold D in H. rewrite elem_of_reverse in H.
    by eapply decorate_key. }
  split; [|split].
  - unfold present. rewrite reverse_Permutation, Hperm. unfold D.
    by rewrite fmap_reverse, reverse_Permutation, decorate_rows.
  - unfold present. rewrite <- fmap_reverse, list_fmap_alt.
    eapply StronglySorted_omap; [|apply StronglySorted_reverse, Hsorted].
    intros [q1 r1] [q2 r2] x y H1 H2 Hle [= <-] [= <-].
    rewrite elem_of_reverse in H1, H2. unfold ranks_before. cbn [snd].
    rewrite (Hkey _ _ H1), (Hkey _ _ H2). exact Hle.
  - apply Forall_forall. intros r Hr. unfold present in Hr.
    rewrite elem_of_reverse in Hr. apply list_elem_of_fmap in Hr as ([q r'] & -> & Hr).
    cbn [snd]. rewrite (Hkey _ _ Hr). done.
Qed.

(** C4 (as the code has it). The ranking is the first [n] records of the
    record set sorted descending by the metric with the missing values last:
    a permutation of the records in which no record stands before one that
    ranks higher. For [n] at least the number of records it is that whole
    sorted set. The order among records with equal values is the one the sort
    algorithm leaves; it need not be the original one. *)
Theorem ranking_is_sorted_descending metric n df :
  metric ∈ columns df →
  ∃ sorted,
    sort_values argsort metric false df = Ok (mkFrame (columns df) sorted)
    ∧ sorted ≡ₚ rows df
    ∧ StronglySorted (ranks_before metric) sorted
    ∧ ranking argsort metric n df = Ok (mkFrame (columns df) (take n sorted))
    ∧ (length (rows df) ≤ n →
       ranking argsort metric n df = Ok (mkFrame (columns df) sorted)).
Proof.
  intros Hm. eexists. split; [by apply sort_values_present|].
  destruct (present_part metric (rows df)) as (Hperm & Hsorted & Hpresent).
  assert (∀ l : list (gmap string cell),
            l ≡ₚ filter (fun r => is_Some (key metric r)) (rows df) →
            (l ++ filter (fun r => ¬ is_Some (key metric r)) (rows df))%list ≡ₚ rows df)
    as Hall.
  { intros l ->. apply filter_app_complement. }
  split; [by apply Hall|]. split; [|split].
  - apply StronglySorted_app_2; [|done|].
    + intros r1 r2 _ H2. apply list_elem_of_filter in H2 as [H2 _].
      unfold ranks_before. destruct (key metric r2); [by destruct H2|].
      by destruct (key metric r1).
    + apply StronglySorted_all. intros r1 r2 _ H2.
      apply list_elem_of_filter in H2 as [H2 _].
      unfold ranks_before. destruct (key metric r2); [by destruct H2|].
      by destruct (key metric r1).
  - by apply ranking_present.
  - intros Hn. rewrite ranking_present by done. cbv zeta. rewrite take_ge; [done|].
    by rewrite (Permutation_length (Hall _ Hperm)).
Qed.

(** C7. Records without a value for the ranking metric are never dropped by
    the sort and stand after every record that has one: the sorted set is the
    records with a value followed by all records without one, so the first
    [n] records reach into the latter as soon as [n] exceeds the number of
    records with a value. *)
Theorem missing_values_rank_last metric n df :
  metric ∈ columns df →
  ∃ present,
    present ≡ₚ filter (fun r => is_Some (key metric r)) (rows df)
    ∧ sort_values argsort metric false df
      = Ok (mkFrame (columns df)
              (present ++ filter (fun r => ¬ is_Some (key metric r)) (rows df)))
    ∧ ranking argsort metric n df
      = Ok (mkFrame (columns df)
              (take n (present ++ filter (fun r => ¬ is_Some (key metric r)) (rows df))))
    ∧ (length present ≤ n →
       ranking argsort metric n df
       = Ok (mkFrame (columns df)
               (present ++ take (n - length present)
                             (filter (fun r => ¬ is_Some (key metric r)) (rows df))))).
Proof.
  intros Hm. eexists. destruct (present_part metric (rows df)) as (Hperm & _ & _).
  split; [exact Hperm|]. split; [by apply sort_values_present|].
  split; [by apply ranking_present|].
  intros Hn. rewrite ranking_present by done. cbv zeta.
  by rewrite take_app_ge by done.
Qed.

(** The table of the Overview tab is the ranking by centrality with 25 rows,
    cut down to its six columns. *)
Lemma hidden_champions_table df :
  [ "county_state"; "gdp"; "population"; "airport_count"; centrality; "SAF_FIRM_COUNT" ]
    ⊆ columns df →
  ∃ top, ranking argsort centrality 25 df = Ok top
         ∧ hidden_champions argsort df
           = Ok (mkFrame
                   [ "county_state"; "gdp"; "population"; "airport_count"; centrality;
                     "SAF_FIRM_COUNT" ]
                   (restrict
                      [ "county_state"; "gdp"; "population"; "airport_count"; centrality;
                        "SAF_FIRM_COUNT" ] <$> rows top)).
Proof.
  intros Hsub. assert (centrality ∈ columns df) as Hc.
  { apply Hsub. by_compute. }
  eexists. split; [by apply ranking_present|].
  unfold hidden_champions. rewrite ranking_present by done.
  cbv beta iota zeta delta [mbind result_bind]. by apply select_present.
Qed.

End Ranking.

(** ** Rankings on sample record sets *)

Lemma merge_argsort_ok : argsort_ok merge_argsort.
Proof.
  intros v. split; [apply merge_sort_Permutation|].
  apply StronglySorted_merge_sort.
  - intros i j k. apply Qle_trans.
  - intros i j. destruct (Qlt_le_dec (val_at v i) (val_at v j)) as [H|H]; [left|by right].
    by apply Qlt_le_weak.
Qed.

Lemma ranking_is_sorted_descending_witness :
  ∃ sorted,
    sort_values merge_argsort centrality false scenario_df
    = Ok (mkFrame (columns scenario_df) sorted)
    ∧ sorted ≡ₚ rows scenario_df
    ∧ StronglySorted (ranks_before centrality) sorted
    ∧ ranking merge_argsort centrality 2 scenario_df
      = Ok (mkFrame (columns scenario_df) (take 2 sorted))
    ∧ (length (rows scenario_df) ≤ 2 →
       ranking merge_argsort centrality 2 scenario_df
       = Ok (mkFrame (columns scenario_df) sorted)).
Proof.
  apply (ranking_is_sorted_descending merge_argsort merge_argsort_ok centrality 2 scenario_df).
  by_compute.
Defined.

Lemma missing_values_rank_last_witness :
  ∃ present,
    present ≡ₚ filter (fun r => is_Some (key centrality r)) (rows scenario_df)
    ∧ sort_values merge_argsort centrality false scenario_df
      = Ok (mkFrame (columns scenario_df)
              (present ++ filter (fun r => ¬ is_Some (key centrality r)) (rows scenario_df)))
    ∧ ranking merge_argsort centrality 3 scenario_df
      = Ok (mkFrame (columns scenario_df)
              (take 3 (present ++ filter (fun r => ¬ is_Some (key centrality r))
                                         (rows scenario_df))))
    ∧ (length present ≤ 3 →
       ranking merge_argsort centrality 3 scenario_df
       = Ok (mkFrame (columns scenario_df)
               (present ++ take (3 - length present)
                             (filter (fun r => ¬ is_Some (key centrality r))
                                     (rows scenario_df))))).
Proof.
  apply (missing_values_rank_last merge_argsort merge_argsort_ok centrality 3 scenario_df).
  by_compute.
Defined.

(** The contract of [argsort] leaves the order of ties open: on the eighteen
    tied counties the merge sort of the positions, which meets it, yields
    C, ..., R, A, B. *)
Lemma tie_order_depends_on_the_sort :
  ∃ out,
    ranking merge_argsort centrality 25 tied_df = Ok out
    ∧ labels (rows out)
      = Str <$> ["C"; "D"; "E"; "F"; "G"; "H"; "I"; "J"; "K"; "L"; "M"; "N"; "O"; "P";
                 "Q"; "R"; "A"; "B"].
Proof. eexists. split; vm_compute; reflexivity. Qed.

(** The scenario of the specification, with numpy's default sort: the top 2
    by centrality are B and A, and the top 3 end with C, whose value is
    missing. *)
Lemma scenario_ranking :
  ∃ top2 top3,
    ranking np_argsort_quicksort centrality 2 scenario_df = Ok top2
    ∧ labels (rows top2) = [Str "B"; Str "A"]
    ∧ ranking np_argsort_quicksort centrality 3 scenario_df = Ok top3
    ∧ labels (rows top3) = [Str "B"; Str "A"; Str "C"].
Proof. eexists _, _. repeat split; vm_compute; reflexivity. Qed.

(** C4 as the specification states it fails: for eighteen counties A to R
    with equal centrality, numpy's default quicksort (one split around the
    median, then insertion sort) leaves the positions in the order 0, 15, 14,
    ..., 1, 16, 17, and the ranking lists the counties as A, B, Q, P, ..., C,
    R; sorted with ties in original row order they are A, B, C, ..., R. *)
Lemma default_sort_does_not_keep_ties_in_row_order :
  aquicksort (replicate 18 0%Q)
  = Some [0; 15; 14; 13; 12; 11; 10; 9; 8; 7; 6; 5; 4; 3; 2; 1; 16; 17]
  ∧ ∃ out,
      ranking np_argsort_quicksort centrality 25 tied_df = Ok out
      ∧ labels (rows out)
        = Str <$> ["A"; "B"; "Q"; "P"; "O"; "N"; "M"; "L"; "K"; "J"; "I"; "H"; "G";
                   "F"; "E"; "D"; "C"; "R"]
      ∧ labels (stable_ranking centrality 25 (rows tied_df)) = Str <$> names18
      ∧ rows out ≠ stable_ranking centrality 25 (rows tied_df).
Proof.
  split; [vm_compute; reflexivity|]. eexists.
  split; [vm_compute; reflexivity|]. split; [vm_compute; reflexivity|].
  split; [vm_compute; reflexivity|].
  intros H. apply (f_equal labels) in H. vm_compute in H. discriminate H.
Qed.

(** ** The Choropleth tab *)





Lemma merge_left_Ok left right on :
  on ∈ columns left → on ∈ columns right →
  merge_left left right on =
  Ok {| columns := (suffixed (overlap left right on) "_x" <$> columns left)
                   ++ (suffixed (overlap left right on) "_y" <$> right_columns right on);
        rows :=
          l ← rows left;
          match filter (fun r => at_ l on = at_ r on) (rows right) with
          | [] => [merged_row left right on l None]
          | ms => merged_row left right on l ∘ Some <$> ms
          end |}.
Proof.
  intros Hl Hr. unfold merge_left, has_column.
  by rewrite !bool_decide_eq_true_2 by done.
Qed.


(** The Joiner on a session that holds the two loaded frames: two frames are
    appended, the merge and what [dropna] keeps of it; nothing else changes. *)
Lemma joiner_unfold key s df gdf :
  frames s !! df_ref = Some df → frames s !! gdf_ref = Some gdf →
  joiner key s =
  (merged ← merge_left gdf df "GEOID";
   out ← dropna (Some [key]) merged;
   Ok (S (length (frames s)),
       {| frames := frames s ++ [merged; out]; page := page s |})).
Proof.
  intros Hdf Hgdf. unfold joiner, merge_method, dropna_method, frame_at.
  rewrite Hdf, Hgdf. cbn [default from_option id].
  destruct (merge_left gdf df "GEOID") as [merged|e]; [|done].
  cbv beta iota zeta delta [mbind result_bind new_frame fst snd frames page].
  rewrite list_lookup_middle by done. cbn [default from_option id].
  destruct (dropna (Some [key]) merged) as [out|e]; [|done].
  rewrite length_app. cbn [length]. rewrite <- app_assoc. cbn [app].
  do 3 f_equal. lia.
Qed.

(** The frames a run of the Joiner adds. *)
Lemma joiner_frames key s a s' :
  joiner key s = Ok (a, s') →
  ∃ merged out,
    frames s' = (frames s ++ [merged; out])%list ∧ page s' = page s
    ∧ a = S (length (frames s)).
Proof.
  unfold joiner, merge_method.
  destruct (merge_left _ _ _) as [m|]; [|done].
  cbv beta iota zeta delta [mbind result_bind new_frame fst snd]. unfold dropna_method.
  destruct (dropna _ _) as [o|]; [|done].
  cbv beta iota zeta delta [mbind result_bind new_frame fst snd frames page].
  intros H. apply Ok_inj, pair_equal_spec in H as [<- <-]. cbn [frames page].
  exists m, o. rewrite <- app_assoc, length_app. cbn [app length].
  split; [done|]. split; [done|]. lia.
Qed.

(** The rows of the left join. *)
Lemma merge_left_rows left right on merged :
  merge_left left right on = Ok merged →
  rows merged
  = (l ← rows left;
     match filter (fun r => at_ l on = at_ r on) (rows right) with
     | [] => [merged_row left right on l None]
     | ms => merged_row left right on l ∘ Some <$> ms
     end).
Proof.
  unfold merge_left. destruct (negb _); [done|]. destruct (negb _); [done|].
  by intros <-%Ok_inj.
Qed.





Ltac metric_cases H :=
  unfold metric_options in H;
  repeat (apply elem_of_cons in H as [[= -> ->]|H]);
  [..|by apply elem_of_nil in H].

Lemma metric_options_get key label :
  (key, label) ∈ metric_options → dict_get metric_options key = Ok label.
Proof. intros H. metric_cases H; vm_compute; reflexivity. Qed.

Lemma placeholder_keys key label :
  (key, label) ∈ metric_options →
  contains "Coming Soon" label = true ↔ key ∈ ["biomass"; "ccs"; "hydrogen"].
Proof.
  intros H. metric_cases H;
    (split; [intros Hc; first [by_compute | vm_compute in Hc; discriminate Hc]
            | intros Hk; first [vm_compute; reflexivity
                               | exfalso; revert Hk; by_compute]]).
Qed.


(** C5. For a key of the catalogue whose label holds "Coming Soon" (these are
    biomass, ccs and hydrogen, labelled Biomass (Coming Soon), CCS (Coming
    Soon) and Hydrogen (Coming Soon)) the tab puts one box on the page, whose
    text is the label followed by " not available yet. This demo shows SAF,
    but the tool is generalizable to all climate techs.", and does nothing
    else: the frames of the session are the ones it started with, whereas
    every run of the Joiner that returns adds two frames (the merge and what
    the filter keeps of it). For every other key of the catalogue the tab runs
    the Joiner: it raises what the Joiner raises, and otherwise keeps the
    Joiner's two new frames and charts the one the Joiner returned. *)
Theorem placeholder_metric_skips_the_joiner key label s :
  (key, label) ∈ metric_options →
  (contains "Coming Soon" label = true ↔ key ∈ ["biomass"; "ccs"; "hydrogen"])
  ∧ (key ∈ ["biomass"; "ccs"; "hydrogen"] →
     label ∈ ["Biomass (Coming Soon)"; "CCS (Coming Soon)"; "Hydrogen (Coming Soon)"]
     ∧ choropleth_tab key s
       = Ok {| frames := frames s;
               page := page s
                 ++ [info_box
                       (label ++ " not available yet. This demo shows SAF, but the tool is generalizable to all climate techs.")] |}
     ∧ ∀ a s', joiner key s = Ok (a, s') → length (frames s') = length (frames s) + 2)
  ∧ (key ∉ ["biomass"; "ccs"; "hydrogen"] →
     (∀ e, joiner key s = Raise e → choropleth_tab key s = Raise e)
     ∧ ∀ a s', joiner key s = Ok (a, s') →
         choropleth_tab key s = Ok {| frames := frames s'; page := page s ++ [chart a] |}
         ∧ length (frames s') = length (frames s) + 2).
Proof.
  intros H. pose proof (placeholder_keys key label H) as Hiff.
  assert (∀ a s', joiner key s = Ok (a, s') → length (frames s') = length (frames s) + 2)
    as Hgrow.
  { intros a s' Hj. apply joiner_frames in Hj as (m & o & -> & _ & _).
    by rewrite length_app. }
  split; [done|]. split.
  - intros Hk. split; [|split; [|done]].
    + clear Hiff Hgrow. metric_cases H; first [by_compute | exfalso; revert Hk; by_compute].
    + apply Hiff in Hk. unfold choropleth_tab. rewrite (metric_options_get key label H).
      cbv beta iota zeta delta [mbind result_bind]. by rewrite Hk.
  - intros Hk.
    assert (contains "Coming Soon" label = false) as Hc.
    { destruct (contains "Coming Soon" label); [|done]. by destruct Hk; apply Hiff. }
    unfold choropleth_tab. rewrite (metric_options_get key label H).
    cbv beta iota zeta delta [mbind result_bind]. rewrite Hc. split.
    + by intros e ->.
    + intros a s' Hj. split; [|by apply (Hgrow a)]. rewrite Hj.
      apply joiner_frames in Hj as (m & o & _ & Hp & _).
      unfold show. cbn [fst snd]. by rewrite Hp.
Qed.

Lemma placeholder_metric_skips_the_joiner_witness :
  (contains "Coming Soon" "Hydrogen (Coming Soon)" = true
   ↔ "hydrogen" ∈ ["biomass"; "ccs"; "hydrogen"])
  ∧ ("hydrogen" ∈ ["biomass"; "ccs"; "hydrogen"] →
     "Hydrogen (Coming Soon)"
       ∈ ["Biomass (Coming Soon)"; "CCS (Coming Soon)"; "Hydrogen (Coming Soon)"]
     ∧ choropleth_tab "hydrogen" (start sample_df sample_gdf)
       = Ok {| frames := frames (start sample_df sample_gdf);
               page := page (start sample_df sample_gdf)
                 ++ [info_box
                       ("Hydrogen (Coming Soon)" ++ " not available yet. This demo shows SAF, but the tool is generalizable to all climate techs.")] |}
     ∧ ∀ a s', joiner "hydrogen" (start sample_df sample_gdf) = Ok (a, s') →
               length (frames s') = length (frames (start sample_df sample_gdf)) + 2)
  ∧ ("hydrogen" ∉ ["biomass"; "ccs"; "hydrogen"] →
     (∀ e, joiner "hydrogen" (start sample_df sample_gdf) = Raise e →
           choropleth_tab "hydrogen" (start sample_df sample_gdf) = Raise e)
     ∧ ∀ a s', joiner "hydrogen" (start sample_df sample_gdf) = Ok (a, s') →
         choropleth_tab "hydrogen" (start sample_df sample_gdf)
         = Ok {| frames := frames s';
                 page := page (start sample_df sample_gdf) ++ [chart a] |}
         ∧ length (frames s') = length (frames (start sample_df sample_gdf)) + 2).
Proof.
  apply (placeholder_metric_skips_the_joiner "hydrogen" "Hydrogen (Coming Soon)"
           (start sample_df sample_gdf)).
  by_compute.
Defined.

(** ** C9: the Joiner and the frames it reads *)

Lemma lookup_second_new {A : Type} (l : list A) (a b : A) :
  (l ++ [a; b])%list !! S (length l) = Some b.
Proof.
  rewrite lookup_app_r by lia. by replace (S (length l) - length l) with 1 by lia.
Qed.

Lemma dropna_subset_Ok (d : DataFrame) (k : string) :
  k ∈ columns d →
  dropna (Some [k]) d
  = Ok {| columns := columns d; rows := filter (fun j => at_ j k ≠ NA) (rows d) |}.
Proof.
  intros Hk. unfold dropna. rewrite filter_cons, filter_nil.
  rewrite decide_False by (by intros H; apply H). do 2 f_equal.
  apply list_filter_iff. intros j. unfold complete. cbn [forallb].
  rewrite andb_true_r. by destruct (at_ j k).
Qed.

Lemma dropna_subset_inv (d out : DataFrame) (k : string) :
  dropna (Some [k]) d = Ok out →
  k ∈ columns d ∧ columns out = columns d
  ∧ rows out = filter (fun j => at_ j k ≠ NA) (rows d).
Proof.
  intros H. destruct (decide (k ∈ columns d)) as [Hk|Hk].
  - rewrite dropna_subset_Ok in H by done. by apply Ok_inj in H as <-.
  - unfold dropna in H. by rewrite filter_cons, decide_True in H.
Qed.

(** C9. A run of the Joiner leaves every frame that existed before it as it
    was, the two loaded frames among them, and the page as well; it only adds
    frames. What it adds is the left join of the two loaded frames on GEOID
    and what [dropna] keeps of that join, the rows whose metric cell is not
    missing, and it returns the latter. Run again on the state it left, it
    adds the same two frames once more and returns a fresh frame that is equal
    to the one it returned first. *)
Theorem joiner_is_repeatable_and_leaves_inputs key s df gdf a s' :
  frames s !! df_ref = Some df → frames s !! gdf_ref = Some gdf →
  joiner key s = Ok (a, s') →
  frames s' !! df_ref = Some df ∧ frames s' !! gdf_ref = Some gdf
  ∧ take (length (frames s)) (frames s') = frames s
  ∧ page s' = page s
  ∧ (∃ a' s'', joiner key s' = Ok (a', s'')
               ∧ a' ≠ a
               ∧ frames s'' !! a' = frames s' !! a
               ∧ frames s'' !! df_ref = Some df ∧ frames s'' !! gdf_ref = Some gdf)
  ∧ ∃ merged out,
      merge_left gdf df "GEOID" = Ok merged
      ∧ dropna (Some [key]) merged = Ok out
      ∧ rows merged
        = (g ← rows gdf;
           match filter (fun r => at_ g "GEOID" = at_ r "GEOID") (rows df) with
           | [] => [merged_row gdf df "GEOID" g None]
           | ms => merged_row gdf df "GEOID" g ∘ Some <$> ms
           end)
      ∧ rows out = filter (fun j => at_ j key ≠ NA) (rows merged)
      ∧ frames s' = (frames s ++ [merged; out])%list
      ∧ frames s' !! a = Some out
      ∧ ∀ a' s'', joiner key s' = Ok (a', s'') →
                  frames s'' = (frames s' ++ [merged; out])%list
                  ∧ frames s'' !! a' = Some out.
Proof.
  intros Hdf Hgdf Hj. rewrite (joiner_unfold key s df gdf) in Hj by done.
  destruct (merge_left gdf df "GEOID") as [merged|] eqn:Em; [|done].
  cbv beta iota zeta delta [mbind result_bind] in Hj.
  destruct (dropna (Some [key]) merged) as [out|] eqn:Eo; [|done].
  apply Ok_inj, pair_equal_spec in Hj as [<- <-]. cbn [frames page].
  assert (∀ (l k : list DataFrame) i x, l !! i = Some x → (l ++ k)%list !! i = Some x)
    as Hkeep by (intros; by apply lookup_app_l_Some).
  assert (joiner key {| frames := frames s ++ [merged; out]; page := page s |}
          = Ok (S (length (frames s ++ [merged; out])%list),
                {| frames := (frames s ++ [merged; out]) ++ [merged; out];
                   page := page s |})) as Hagain.
  { rewrite (joiner_unfold key _ df gdf) by (by apply Hkeep).
    rewrite Em. cbv beta iota zeta delta [mbind result_bind]. rewrite Eo. reflexivity. }
  split; [by apply Hkeep|]. split; [by apply Hkeep|].
  split; [by rewrite take_app_length|]. split; [done|]. split.
  - eexists _, _. split; [exact Hagain|]. cbn [frames].
    split; [rewrite length_app; cbn [length]; lia|]. split.
    + by rewrite !lookup_second_new.
    + split; by apply Hkeep, Hkeep.
  - exists merged, out. split; [done|]. split; [done|].
    split; [by apply merge_left_rows|].
    split; [by apply dropna_subset_inv in Eo as (_ & _ & ?)|].
    split; [done|]. split; [apply lookup_second_new|].
    intros a' s'' Hj'. rewrite Hagain in Hj'.
    apply Ok_inj, pair_equal_spec in Hj' as [<- <-]. cbn [frames].
    split; [done | apply lookup_second_new].
Qed.

(** ** C6: what the Joiner returns *)





(** The left join of the sample frames: the labels of the merged frame are
    pairwise distinct, and the geometry without a record keeps its cells beside
    missing record fields. *)
Lemma left_join_on_the_sample_frames :
  ∃ merged,
    merge_left map_gdf map_df "GEOID" = Ok merged
    ∧ columns merged = ["STATE_NAME_x"; "geometry"; "GEOID"; "STATE_NAME_y"; "gdp"; "county_state"]
    ∧ NoDup (columns merged)
    ∧ (fun j => (at_ j "STATE_NAME_x", at_ j "geometry", at_ j "GEOID",
                 at_ j "STATE_NAME_y", at_ j "gdp", at_ j "county_state")) <$> rows merged
      = [ (Str "Alabama", Shape 0, Str "01001", Str "Alabama", Num 10, Str "Autauga, Alabama");
          (Str "Alabama", Shape 1, Str "01003", Str "Alabama", NA, Str "Baldwin, Alabama");
          (Str "Alabama", Shape 2, Str "01005", NA, NA, NA) ].
Proof.
  eexists. split; [vm_compute; reflexivity|]. split; [vm_compute; reflexivity|].
  split; [by_compute | vm_compute; reflexivity].
Qed.

(** The map of the sample frames: of three geometries, one has a record with
    a GDP value; the county without a record and the county without a value
    are left out. With a metric no record has a value for, nothing is left,
    and the Joiner still returns. *)
Lemma joiner_on_the_sample_frames :
  ∃ s out,
    joiner "gdp" (start map_df map_gdf) = Ok (3, s)
    ∧ frames s !! 3 = Some out
    ∧ (fun j => (at_ j "GEOID", at_ j "gdp", at_ j "STATE_NAME_x", at_ j "county_state"))
        <$> rows out
      = [(Str "01001", Num 10, Str "Alabama", Str "Autauga, Alabama")].
Proof. eexists _, _. repeat split; vm_compute; reflexivity. Qed.

Lemma joiner_is_repeatable_and_leaves_inputs_witness :
  ∃ a s',
    joiner "gdp" (start map_df map_gdf) = Ok (a, s')
    ∧ frames s' !! df_ref = Some map_df ∧ frames s' !! gdf_ref = Some map_gdf
    ∧ take (length (frames (start map_df map_gdf))) (frames s')
      = frames (start map_df map_gdf)
    ∧ page s' = page (start map_df map_gdf)
    ∧ (∃ a' s'', joiner "gdp" s' = Ok (a', s'')
                 ∧ a' ≠ a
                 ∧ frames s'' !! a' = frames s' !! a
                 ∧ frames s'' !! df_ref = Some map_df
                 ∧ frames s'' !! gdf_ref = Some map_gdf)
    ∧ ∃ merged out,
        merge_left map_gdf map_df "GEOID" = Ok merged
        ∧ dropna (Some ["gdp"]) merged = Ok out
        ∧ rows merged
          = (g ← rows map_gdf;
             match filter (fun r => at_ g "GEOID" = at_ r "GEOID") (rows map_df) with
             | [] => [merged_row map_gdf map_df "GEOID" g None]
             | ms => merged_row map_gdf map_df "GEOID" g ∘ Some <$> ms
             end)
        ∧ rows out = filter (fun j => at_ j "gdp" ≠ NA) (rows merged)
        ∧ frames s' = (frames (start map_df map_gdf) ++ [merged; out])%list
        ∧ frames s' !! a = Some out
        ∧ ∀ a' s'', joiner "gdp" s' = Ok (a', s'') →
                    frames s'' = (frames s' ++ [merged; out])%list
                    ∧ frames s'' !! a' = Some out.
Proof.
  eexists _, _. split; [vm_compute; reflexivity|].
  apply (joiner_is_repeatable_and_leaves_inputs "gdp" (start map_df map_gdf) map_df map_gdf);
    vm_compute; reflexivity.
Defined.

(** The store is shared: an assignment in place to a loaded frame is seen by
    the next run of the Joiner, which joins the frame as assigned. What C9
    states of the Joiner is therefore a property of the operations it calls,
    not of the store. *)
Lemma assignment_in_place_is_seen_by_the_joiner key s df gdf col values :
  frames s !! df_ref = Some df → frames s !! gdf_ref = Some gdf →
  joiner key (assign_method df_ref col values s)
  = (merged ← merge_left gdf (setitem df col values) "GEOID";
     out ← dropna (Some [key]) merged;
     Ok (S (length (frames s)),
         {| frames := <[df_ref := setitem df col values]> (frames s) ++ [merged; out];
            page := page s |})).
Proof.
  intros Hdf Hgdf.
  assert (assign_method df_ref col values s
          = {| frames := <[df_ref := setitem df col values]> (frames s); page := page s |})
    as ->.
  { unfold assign_method, frame_at. by rewrite Hdf. }
  rewrite (joiner_unfold key _ (setitem df col values) gdf); cbn [frames page].
  - by rewrite length_insert.
  - apply list_lookup_insert_eq. by apply lookup_lt_Some in Hdf.
  - by rewrite list_lookup_insert_ne.
Qed.

(** On the sample frames: after the GDP column of the records is overwritten in
    place with missing values, the Joiner returns no row where it returned one
    before. *)
Lemma joiner_after_an_assignment_in_place :
  ∃ s1 s2 out1 out2,
    joiner "gdp" (start map_df map_gdf) = Ok (3, s1)
    ∧ frames s1 !! 3 = Some out1 ∧ length (rows out1) = 1
    ∧ joiner "gdp" (assign_method df_ref "gdp" [NA; NA] s1) = Ok (5, s2)
    ∧ frames s2 !! 5 = Some out2 ∧ rows out2 = [].
Proof. eexists _, _, _, _. repeat split; vm_compute; reflexivity. Qed.

(** * Further properties of the pipeline *)

(** ** [load_data]: exceptions, label, shape, coercion *)

Lemma getitem_absent (df : DataFrame) (col : string) :
  col ∉ columns df → getitem df col = Raise (KeyError col).
Proof. intros H. unfold getitem, has_column. by rewrite bool_decide_eq_false_2. Qed.

Lemma string_app_assoc (a b c : string) : (a ++ b) ++ c = a ++ (b ++ c).
Proof.
  induction a as [|x a IH]; [done|].
  change (String x ((a ++ b) ++ c) = String x (a ++ (b ++ c))). by rewrite IH.
Qed.

Lemma name_columns_not_numeric :
  ("COUNTY_NAME" ∉ numeric_cols) ∧ ("STATE_NAME" ∉ numeric_cols) ∧ ("GEOID" ∉ numeric_cols).
Proof. repeat split; by_compute. Qed.

(** X1. [load_data] raises for an absent column only, and only for the four
    columns its last lines read: a [KeyError] for COUNTY_NAME, else for
    STATE_NAME (record file), else for STATEFP, else for COUNTYFP (shapefile),
    in the order the script reads them. Whatever the cells hold, nothing else
    is raised; with the four columns there it returns the coerced records with
    the label column, the geometries with the GEOID column, and the
    whitelist. *)
Theorem load_data_raises_on_the_first_absent_column parse_float csv shp :
  load_data parse_float csv shp =
  match filter (fun c => c ∉ columns csv) ["COUNTY_NAME"; "STATE_NAME"],
        filter (fun c => c ∉ columns shp) ["STATEFP"; "COUNTYFP"] with
  | c :: _, _ => Raise (KeyError c)
  | [], c :: _ => Raise (KeyError c)
  | [], [] =>
      let coerced := coerce_cols parse_float numeric_cols csv in
      Ok (setitem coerced "county_state"
            ((fun r => county_state (at_ r "COUNTY_NAME") (at_ r "STATE_NAME")) <$> rows coerced),
          setitem shp "GEOID"
            ((fun r => geoid (at_ r "STATEFP") (at_ r "COUNTYFP")) <$> rows shp),
          numeric_cols)
  end.
Proof.
  pose proof (coerce_cols_columns parse_float numeric_cols csv) as Hcols.
  rewrite !filter_cons, !filter_nil.
  destruct (decide ("COUNTY_NAME" ∈ columns csv)) as [Hcn|Hcn].
  2:{ rewrite (decide_True (P := "COUNTY_NAME" ∉ columns csv)) by done.
      unfold load_data.
      rewrite (getitem_absent _ "COUNTY_NAME") by (by rewrite Hcols). done. }
  rewrite (decide_False (P := "COUNTY_NAME" ∉ columns csv)) by (by intros H; apply H).
  destruct (decide ("STATE_NAME" ∈ columns csv)) as [Hsn|Hsn].
  2:{ rewrite (decide_True (P := "STATE_NAME" ∉ columns csv)) by done.
      unfold load_data.
      rewrite (getitem_present _ "COUNTY_NAME") by (by rewrite Hcols).
      rewrite (getitem_absent _ "STATE_NAME") by (by rewrite Hcols). done. }
  rewrite (decide_False (P := "STATE_NAME" ∉ columns csv)) by (by intros H; apply H).
  destruct (decide ("STATEFP" ∈ columns shp)) as [Hsf|Hsf].
  2:{ rewrite (decide_True (P := "STATEFP" ∉ columns shp)) by done.
      unfold load_data.
      rewrite (getitem_present _ "COUNTY_NAME") by (by rewrite Hcols).
      rewrite (getitem_present _ "STATE_NAME") by (by rewrite Hcols).
      rewrite (getitem_absent _ "STATEFP") by done. done. }
  rewrite (decide_False (P := "STATEFP" ∉ columns shp)) by (by intros H; apply H).
  destruct (decide ("COUNTYFP" ∈ columns shp)) as [Hcf|Hcf].
  2:{ rewrite (decide_True (P := "COUNTYFP" ∉ columns shp)) by done.
      unfold load_data.
      rewrite (getitem_present _ "COUNTY_NAME") by (by rewrite Hcols).
      rewrite (getitem_present _ "STATE_NAME") by (by rewrite Hcols).
      rewrite (getitem_present _ "STATEFP") by done.
      rewrite (getitem_absent _ "COUNTYFP") by done. done. }
  rewrite (decide_False (P := "COUNTYFP" ∉ columns shp)) by (by intros H; apply H).
  by apply load_data_present.
Qed.

(** X2. The display label of every record [load_data] returns is the county
    name, a comma and a blank, and the state name when both are text; it is
    missing when either of them is missing. *)
Theorem county_state_joins_name_and_state parse_float csv shp df gdf cols :
  load_data parse_float csv shp = Ok (df, gdf, cols) →
  Forall2
    (fun r0 r =>
       r !! "county_state"
       = Some (match r0 !! "COUNTY_NAME", r0 !! "STATE_NAME" with
               | Some (Str county), Some (Str state) => Str (county ++ ", " ++ state)
               | _, _ => NA
               end))
    (rows csv) (rows df).
Proof.
  intros Hload. apply load_data_Ok in Hload as (_ & _ & _ & _ & -> & _ & _).
  rewrite setitem_rows, coerce_cols_rows, <- list_fmap_compose.
  apply Forall2_fmap_r, Forall_Forall2_diag, Forall_forall.
  intros r0 _. unfold compose. rewrite lookup_insert_eq. f_equal.
  destruct name_columns_not_numeric as (Hc & Hs & _).
  unfold at_. rewrite !coerce_row_other by done.
  unfold county_state.
  destruct (r0 !! "COUNTY_NAME") as [[|a| |]|]; try done;
    destruct (r0 !! "STATE_NAME") as [[|b| |]|]; try done.
  cbn [default from_option id as_text str_add of_text]. by rewrite string_app_assoc.
Qed.

Lemma county_state_joins_name_and_state_witness :
  Forall2
    (fun r0 r =>
       r !! "county_state"
       = Some (match r0 !! "COUNTY_NAME", r0 !! "STATE_NAME" with
               | Some (Str county), Some (Str state) => Str (county ++ ", " ++ state)
               | _, _ => NA
               end))
    (rows sample_csv) (rows sample_df).
Proof.
  apply (county_state_joins_name_and_state no_float sample_csv sample_shp
           sample_df sample_gdf numeric_cols).
  vm_compute. reflexivity.
Defined.

(** X3. [load_data] keeps the rows of both files, one for one, and their
    columns in order: [county_state] and [GEOID] are appended as the last
    column, or overwritten in place when the file already has a column of that
    name. The third component is the whitelist. *)
Theorem load_data_keeps_the_shape parse_float csv shp df gdf cols :
  load_data parse_float csv shp = Ok (df, gdf, cols) →
  length (rows df) = length (rows csv)
  ∧ columns df = (if bool_decide ("county_state" ∈ columns csv) then columns csv
                  else (columns csv ++ ["county_state"])%list)
  ∧ length (rows gdf) = length (rows shp)
  ∧ columns gdf = (if bool_decide ("GEOID" ∈ columns shp) then columns shp
                   else (columns shp ++ ["GEOID"])%list)
  ∧ cols = numeric_cols.
Proof.
  intros Hload. apply load_data_Ok in Hload as (_ & _ & _ & _ & -> & -> & ->).
  rewrite !setitem_rows, coerce_cols_rows, !length_fmap.
  unfold setitem, has_column. cbn [columns]. by rewrite coerce_cols_columns.
Qed.

Lemma load_data_keeps_the_shape_witness :
  length (rows sample_df) = length (rows sample_csv)
  ∧ columns sample_df = (if bool_decide ("county_state" ∈ columns sample_csv)
                         then columns sample_csv
                         else (columns sample_csv ++ ["county_state"])%list)
  ∧ length (rows sample_gdf) = length (rows sample_shp)
  ∧ columns sample_gdf = (if bool_decide ("GEOID" ∈ columns sample_shp) then columns sample_shp
                          else (columns sample_shp ++ ["GEOID"])%list)
  ∧ numeric_cols = numeric_cols.
Proof.
  apply (load_data_keeps_the_shape no_float sample_csv sample_shp
           sample_df sample_gdf numeric_cols).
  vm_compute. reflexivity.
Defined.

(** X4. In the records [load_data] returns, a whitelisted column that the
    file has holds, row by row, the number its text parses to, and a missing
    value where the text is no number or the cell was missing; every column
    off the whitelist, GEOID among them, is left as read. *)
Theorem load_data_coerces_exactly_the_whitelist parse_float csv shp df gdf cols :
  load_data parse_float csv shp = Ok (df, gdf, cols) →
  Forall2
    (fun r0 r => ∀ c,
       (c ∈ numeric_cols → c ∈ columns csv →
        r !! c = Some (match r0 !! c with
                       | Some (Str s) => from_option Num NA (parse_float s)
                       | Some (Num x) => Num x
                       | _ => NA
                       end))
       ∧ (c ∉ numeric_cols → c ≠ "county_state" → r !! c = r0 !! c))
    (rows csv) (rows df).
Proof.
  intros Hload. apply load_data_Ok in Hload as (_ & _ & _ & _ & -> & _ & _).
  rewrite setitem_rows, coerce_cols_rows, <- list_fmap_compose.
  apply Forall2_fmap_r, Forall_Forall2_diag, Forall_forall.
  intros r0 _ c. unfold compose. split.
  - intros Hc Hin.
    rewrite lookup_insert_ne by (intros <-; by apply county_state_not_numeric).
    rewrite coerce_row_coerced by (by try apply numeric_cols_NoDup).
    f_equal. unfold at_, to_numeric.
    destruct (r0 !! c) as [[|s| |]|]; done.
  - intros Hc Hne. rewrite lookup_insert_ne by done. by apply coerce_row_other.
Qed.

Lemma load_data_coerces_exactly_the_whitelist_witness :
  Forall2
    (fun r0 r => ∀ c,
       (c ∈ numeric_cols → c ∈ columns sample_csv →
        r !! c = Some (match r0 !! c with
                       | Some (Str s) => from_option Num NA (no_float s)
                       | Some (Num x) => Num x
                       | _ => NA
                       end))
       ∧ (c ∉ numeric_cols → c ≠ "county_state" → r !! c = r0 !! c))
    (rows sample_csv) (rows sample_df).
Proof.
  apply (load_data_coerces_exactly_the_whitelist no_float sample_csv sample_shp
           sample_df sample_gdf numeric_cols).
  vm_compute. reflexivity.
Defined.

Lemma to_numeric_idemp parse_float c :
  to_numeric parse_float (to_numeric parse_float c) = to_numeric parse_float c.
Proof. destruct c as [|s| |]; try done. simpl. by destruct (parse_float s). Qed.

Lemma coerce_row_lookup parse_float present cols r c :
  NoDup cols →
  coerce_row parse_float present cols r !! c
  = if bool_decide (c ∈ cols ∧ c ∈ present)
    then Some (to_numeric parse_float (at_ r c)) else r !! c.
Proof.
  intros Hnd. case_bool_decide as H.
  - destruct H. by apply coerce_row_coerced.
  - destruct (decide (c ∈ present)).
    + apply coerce_row_other. tauto.
    + by apply coerce_row_absent.
Qed.

(** X5. The coercion loop is idempotent: run again on its own result, it
    changes nothing. *)
Theorem coercion_is_idempotent parse_float csv :
  coerce_cols parse_float numeric_cols (coerce_cols parse_float numeric_cols csv)
  = coerce_cols parse_float numeric_cols csv.
Proof.
  pose proof numeric_cols_NoDup as Hnd.
  destruct (coerce_cols parse_float numeric_cols csv) as [cs rs] eqn:E.
  pose proof (coerce_cols_columns parse_float numeric_cols csv) as Hc.
  pose proof (coerce_cols_rows parse_float numeric_cols csv) as Hr.
  rewrite E in Hc, Hr. cbn [columns rows] in Hc, Hr.
  destruct (coerce_cols parse_float numeric_cols (mkFrame cs rs)) as [cs' rs'] eqn:E'.
  pose proof (coerce_cols_columns parse_float numeric_cols (mkFrame cs rs)) as Hc'.
  pose proof (coerce_cols_rows parse_float numeric_cols (mkFrame cs rs)) as Hr'.
  rewrite E' in Hc', Hr'. cbn [columns rows] in Hc', Hr'.
  subst cs' rs' cs. f_equal. rewrite Hr, <- list_fmap_compose.
  apply list_fmap_ext. intros _ r _. unfold compose. apply map_eq. intros c.
  rewrite !coerce_row_lookup by done. case_bool_decide; [|done].
  unfold at_ at 1. rewrite coerce_row_lookup by done.
  rewrite bool_decide_eq_true_2 by done. cbn [default from_option id].
  by rewrite to_numeric_idemp.
Qed.

(** The labels of the two frames [load_data] returns. *)
Lemma load_data_columns parse_float csv shp df gdf cols c :
  load_data parse_float csv shp = Ok (df, gdf, cols) →
  (c ∈ columns df ↔ c ∈ columns csv ∨ c = "county_state")
  ∧ (c ∈ columns gdf ↔ c ∈ columns shp ∨ c = "GEOID").
Proof.
  intros Hload. apply load_data_Ok in Hload as (_ & _ & _ & _ & -> & -> & _).
  unfold setitem, has_column. cbn [columns]. rewrite coerce_cols_columns.
  split; case_bool_decide; rewrite ?elem_of_app, ?list_elem_of_singleton;
    split; try tauto; intros [?| ->]; done.
Qed.

(** ** The Overview table *)

Section RankingTable.
Variable argsort : list Q → list nat.
Hypothesis argsort_contract : argsort_ok argsort.

Lemma ranking_sorted metric df :
  metric ∈ columns df →
  ∃ present : list (gmap string cell),
    let missing := filter (fun r => ¬ is_Some (key metric r)) (rows df) in
    present ≡ₚ filter (fun r => is_Some (key metric r)) (rows df)
    ∧ Forall (fun r => is_Some (key metric r)) present
    ∧ (present ++ missing)%list ≡ₚ rows df
    ∧ StronglySorted (ranks_before metric) (present ++ missing)
    ∧ ∀ n, ranking argsort metric n df
           = Ok (mkFrame (columns df) (take n (present ++ missing))).
Proof.
  intros Hm. eexists. cbv zeta.
  destruct (present_part argsort argsort_contract metric (rows df))
    as (Hperm & Hsorted & Hpresent).
  split; [exact Hperm|]. split; [exact Hpresent|].
  assert (∀ r1 r2 : gmap string cell,
            r2 ∈ filter (fun r => ¬ is_Some (key metric r)) (rows df) →
            ranks_before metric r1 r2) as Hlast.
  { intros r1 r2 H2. apply list_elem_of_filter in H2 as [H2 _].
    unfold ranks_before. destruct (key metric r2); [by destruct H2|].
    by destruct (key metric r1). }
  split; [|split].
  - rewrite Hperm. apply filter_app_complement.
  - apply StronglySorted_app_2; [|done|].
    + intros r1 r2 _. apply Hlast.
    + apply StronglySorted_all. intros r1 r2 _. apply Hlast.
  - intros n. by apply ranking_present.
Qed.

(** X7. Where the record set has the six columns of the table, the Overview
    table is returned with exactly these columns, in the order of the
    selection, and with [25 `min` n] rows for [n] records. Every row is a
    record cut down to the six columns, and the rows stand in descending order
    of centrality, the missing values last. *)
Theorem hidden_champions_has_six_columns_and_25_rows df :
  table_columns ⊆ columns df →
  ∃ table,
    hidden_champions argsort df = Ok table
    ∧ columns table = table_columns
    ∧ length (rows table) = 25 `min` length (rows df)
    ∧ Forall (fun t => ∃ r, r ∈ rows df ∧ t = restrict table_columns r) (rows table)
    ∧ StronglySorted (ranks_before centrality) (rows table).
Proof.
  intros Hsub. assert (centrality ∈ columns df) as Hc.
  { apply Hsub. by_compute. }
  destruct (ranking_sorted centrality df Hc) as (present & _ & _ & Hperm & Hsorted & Hrank).
  cbv zeta in Hperm, Hsorted, Hrank.
  eexists. split.
  { unfold hidden_champions. rewrite Hrank.
    cbv beta iota zeta delta [mbind result_bind]. by apply select_present. }
  cbn [columns rows]. split; [done|]. split; [|split].
  - by rewrite length_fmap, length_take, (Permutation_length Hperm).
  - apply Forall_fmap, Forall_forall. intros r Hr. exists r. split; [|done].
    rewrite <- Hperm. by apply elem_of_take in Hr as (i & Hr%list_elem_of_lookup_2 & _).
  - apply (StronglySorted_fmap _ (ranks_before centrality)).
    + intros r1 r2. unfold ranks_before, key.
      by rewrite !(at_restrict table_columns _ centrality) by by_compute.
    + rewrite <- (take_drop 25) in Hsorted. by apply StronglySorted_app_1_l in Hsorted.
Qed.

(** X8. The ranking splits the records in the [n `min` (number of records)]
    it returns and the rest, and no record of the rest outranks a returned one:
    it has no value, or its value is at most that of every returned record. *)
Theorem no_record_left_out_outranks_the_ranking metric n df :
  metric ∈ columns df →
  ∃ top rest,
    ranking argsort metric n df = Ok (mkFrame (columns df) top)
    ∧ (top ++ rest)%list ≡ₚ rows df
    ∧ length top = n `min` length (rows df)
    ∧ ∀ r r', r ∈ top → r' ∈ rest → ranks_before metric r r'.
Proof.
  intros Hm.
  destruct (ranking_sorted metric df Hm) as (present & _ & _ & Hperm & Hsorted & Hrank).
  cbv zeta in Hperm, Hsorted, Hrank.
  set (sorted := (present ++ filter (fun r => ¬ is_Some (key metric r)) (rows df))%list) in *.
  exists (take n sorted), (drop n sorted).
  split; [apply Hrank|]. split; [by rewrite take_drop|].
  split; [by rewrite length_take, (Permutation_length Hperm)|].
  intros r r'. apply StronglySorted_app_1_elem_of. by rewrite take_drop.
Qed.

(** X9. As long as [n] does not exceed the number of records that have a
    value for the metric, the ranking has exactly [n] rows and each of them
    has a value. *)
Theorem ranking_shows_values_only_while_they_last metric n df :
  metric ∈ columns df →
  n ≤ length (filter (fun r => is_Some (key metric r)) (rows df)) →
  ∃ top,
    ranking argsort metric n df = Ok (mkFrame (columns df) top)
    ∧ length top = n
    ∧ Forall (fun r => is_Some (key metric r)) top.
Proof.
  intros Hm Hn.
  destruct (ranking_sorted metric df Hm) as (present & Hp & Hall & _ & _ & Hrank).
  cbv zeta in Hrank. rewrite <- (Permutation_length Hp) in Hn.
  exists (take n present). split; [|split].
  - rewrite Hrank. by rewrite take_app_le.
  - rewrite length_take. lia.
  - by apply Forall_take.
Qed.

End RankingTable.

Lemma hidden_champions_has_six_columns_and_25_rows_witness :
  ∃ table,
    hidden_champions merge_argsort champions_df = Ok table
    ∧ columns table = table_columns
    ∧ length (rows table) = 25 `min` length (rows champions_df)
    ∧ Forall (fun t => ∃ r, r ∈ rows champions_df ∧ t = restrict table_columns r) (rows table)
    ∧ StronglySorted (ranks_before centrality) (rows table).
Proof.
  apply (hidden_champions_has_six_columns_and_25_rows merge_argsort merge_argsort_ok
           champions_df).
  by_compute.
Defined.

Lemma no_record_left_out_outranks_the_ranking_witness :
  ∃ top rest,
    ranking merge_argsort centrality 2 scenario_df = Ok (mkFrame (columns scenario_df) top)
    ∧ (top ++ rest)%list ≡ₚ rows scenario_df
    ∧ length top = 2 `min` length (rows scenario_df)
    ∧ ∀ r r', r ∈ top → r' ∈ rest → ranks_before centrality r r'.
Proof.
  apply (no_record_left_out_outranks_the_ranking merge_argsort merge_argsort_ok
           centrality 2 scenario_df).
  by_compute.
Defined.

Lemma ranking_shows_values_only_while_they_last_witness :
  ∃ top,
    ranking merge_argsort centrality 2 scenario_df = Ok (mkFrame (columns scenario_df) top)
    ∧ length top = 2
    ∧ Forall (fun r => is_Some (key centrality r)) top.
Proof.
  apply (ranking_shows_values_only_while_they_last merge_argsort merge_argsort_ok
           centrality 2 scenario_df).
  - by_compute.
  - vm_compute. lia.
Defined.

(** X10. A column of the Overview table that the record file lacks makes the
    table fail although [load_data] returned. Without the centrality column
    the sort raises [KeyError] for it; without another column of the table
    (the label apart, which [load_data] creates) the selection raises
    [KeyError] for an absent column of the table. *)
Theorem overview_fails_on_a_skipped_column (argsort : list Q → list nat)
    parse_float csv shp df gdf cols :
  load_data parse_float csv shp = Ok (df, gdf, cols) →
  (centrality ∉ columns csv →
   hidden_champions argsort df = Raise (KeyError centrality))
  ∧ (∀ c, c ∈ table_columns → c ≠ "county_state" → c ∉ columns csv →
     ∃ c', c' ∈ table_columns ∧ (c' ∉ columns csv)
           ∧ hidden_champions argsort df = Raise (KeyError c')).
Proof.
  intros Hload.
  pose proof (fun c => proj1 (load_data_columns _ _ _ _ _ _ c Hload)) as Hcols.
  assert (centrality ∉ columns csv →
          hidden_champions argsort df = Raise (KeyError centrality)) as Hfirst.
  { intros Habs. unfold hidden_champions, ranking, sort_values.
    rewrite getitem_absent; [done|].
    rewrite Hcols. by intros [?|?]. }
  split; [done|]. intros c Hc Hne Habs.
  destruct (decide (centrality ∈ columns csv)) as [Hin|Hout].
  2:{ exists centrality. split; [by_compute|]. split; [done|]. by apply Hfirst. }
  assert (centrality ∈ columns df) as Hc' by (apply Hcols; by left).
  unfold hidden_champions. rewrite ranking_present by done.
  cbv beta iota zeta delta [mbind result_bind]. unfold select. cbn [columns].
  fold table_columns.
  destruct (filter (fun c => ¬ c ∈ columns df) table_columns) as [|c' rest] eqn:E.
  - assert (c ∈ filter (fun c => ¬ c ∈ columns df) table_columns) as Hf.
    { apply list_elem_of_filter. split; [|done]. rewrite Hcols. by intros [?|?]. }
    rewrite E in Hf. by apply elem_of_nil in Hf.
  - assert (c' ∈ filter (fun c => ¬ c ∈ columns df) table_columns) as Hf by (rewrite E; left).
    apply list_elem_of_filter in Hf as [Hn Ht].
    exists c'. split; [done|]. split; [|done].
    intros Hin'. apply Hn, Hcols. by left.
Qed.

Lemma overview_fails_on_a_skipped_column_witness :
  (centrality ∉ columns sample_csv →
   hidden_champions merge_argsort sample_df = Raise (KeyError centrality))
  ∧ (∀ c, c ∈ table_columns → c ≠ "county_state" → c ∉ columns sample_csv →
     ∃ c', c' ∈ table_columns ∧ (c' ∉ columns sample_csv)
           ∧ hidden_champions merge_argsort sample_df = Raise (KeyError c')).
Proof.
  apply (overview_fails_on_a_skipped_column merge_argsort no_float sample_csv sample_shp
           sample_df sample_gdf numeric_cols).
  vm_compute. reflexivity.
Defined.

(** ** The Scatterplots tab *)

Lemma plot_df_outcome df x_col y_col :
  plot_df df x_col y_col =
  let cols := [x_col; y_col; "county_state"] in
  match filter (fun c => ¬ c ∈ columns df) cols with
  | c :: _ => Raise (KeyError c)
  | [] => Ok (mkFrame cols (restrict cols <$> filter (fun r => complete cols r) (rows df)))
  end.
Proof.
  cbv zeta. destruct (plot_df df x_col y_col) as [p|e] eqn:E.
  - apply plot_df_Ok in E as [Hsub ->]. cbv zeta in Hsub.
    destruct (filter (fun c => ¬ c ∈ columns df) _) as [|c rest] eqn:F; [done|].
    assert (c ∈ filter (fun c => ¬ c ∈ columns df) [x_col; y_col; "county_state"]) as Hf
      by (rewrite F; left).
    apply list_elem_of_filter in Hf as [Hn Hc]. by apply Hsub in Hc.
  - unfold plot_df, select in E.
    destruct (filter (fun c => ¬ c ∈ columns df) _) as [|c rest].
    { cbv beta iota zeta delta [mbind result_bind dropna] in E. done. }
    cbv beta iota zeta delta [mbind result_bind] in E. by rewrite <- E.
Qed.

(** X11. In the Scatterplots tab a metric whose column the record file lacks
    raises [KeyError] at the selection of [plot_df], before any fit: for the X
    metric, and for the Y metric when the X column is there. *)
Theorem scatter_fails_on_a_skipped_column parse_float csv shp df gdf cols x_col y_col :
  load_data parse_float csv shp = Ok (df, gdf, cols) →
  x_col ≠ "county_state" → y_col ≠ "county_state" →
  (x_col ∉ columns csv → scatter_slope df x_col y_col = Raise (KeyError x_col))
  ∧ (x_col ∈ columns csv → y_col ∉ columns csv →
     scatter_slope df x_col y_col = Raise (KeyError y_col)).
Proof.
  intros Hload Hx Hy.
  pose proof (fun c => proj1 (load_data_columns _ _ _ _ _ _ c Hload)) as Hcols.
  split.
  - intros Habs. unfold scatter_slope. rewrite plot_df_outcome. cbv zeta.
    rewrite filter_cons, decide_True; [done|].
    rewrite Hcols. by intros [?|?].
  - intros Hin Habs. unfold scatter_slope. rewrite plot_df_outcome. cbv zeta.
    rewrite filter_cons, decide_False.
    2:{ intros H. apply H, Hcols. by left. }
    rewrite filter_cons, decide_True; [done|].
    rewrite Hcols. by intros [?|?].
Qed.

Lemma scatter_fails_on_a_skipped_column_witness :
  ("population" ∉ columns sample_csv →
   scatter_slope sample_df "population" "gdp" = Raise (KeyError "population"))
  ∧ ("population" ∈ columns sample_csv → "gdp" ∉ columns sample_csv →
     scatter_slope sample_df "population" "gdp" = Raise (KeyError "gdp")).
Proof.
  apply (scatter_fails_on_a_skipped_column no_float sample_csv sample_shp
           sample_df sample_gdf numeric_cols "population" "gdp");
    first [done | vm_compute; reflexivity].
Defined.

(** X12. The outcome of the Scatterplots tab (a slope, no slope, or an
    exception) depends on the complete rows only: it is the same on the record
    set and on the record set without the rows that miss X, Y or the label. *)
Theorem scatter_slope_ignores_incomplete_rows df x_col y_col :
  scatter_slope df x_col y_col
  = scatter_slope
      (mkFrame (columns df)
         (filter (fun r => at_ r x_col ≠ NA ∧ at_ r y_col ≠ NA ∧ at_ r "county_state" ≠ NA)
                 (rows df)))
      x_col y_col.
Proof.
  unfold scatter_slope. rewrite !plot_df_outcome. cbv zeta. cbn [columns rows].
  rewrite list_filter_filter.
  rewrite (list_filter_iff
             (fun r => complete [x_col; y_col; "county_state"] r
                       ∧ (at_ r x_col ≠ NA ∧ at_ r y_col ≠ NA ∧ at_ r "county_state" ≠ NA))
             (fun r => complete [x_col; y_col; "county_state"] r)); [done|].
  intros r. rewrite complete_three. tauto.
Qed.

(** *** The fit without complete rows *)

Lemma filter_none {A : Type} (P : A → Prop) `{!∀ x, Decision (P x)} (l : list A) :
  Forall (fun x => ¬ P x) l → filter P l = [].
Proof.
  induction 1 as [|x l Hx _ IH]; [done|]. by rewrite filter_cons, decide_False.
Qed.

(** X15. When no record has X, Y and the label all present (a record file
    without rows included), the tab stops with the ValueError of the
    statsmodels constructor and displays nothing. *)
Theorem scatter_raises_without_complete_rows parse_float csv shp df gdf cols x_col y_col :
  load_data parse_float csv shp = Ok (df, gdf, cols) →
  x_col ∈ numeric_cols → y_col ∈ numeric_cols → x_col ≠ y_col →
  x_col ∈ columns csv → y_col ∈ columns csv →
  Forall (fun r => at_ r x_col = NA ∨ at_ r y_col = NA ∨ at_ r "county_state" = NA) (rows df) →
  scatter_slope df x_col y_col = Raise zero_size.
Proof.
  intros Hload Hx Hy Hne Hxc Hyc Hnone.
  pose proof (load_data_float_column _ _ _ _ _ _ x_col Hload Hx Hxc) as Hfx.
  pose proof (load_data_float_column _ _ _ _ _ _ y_col Hload Hy Hyc) as Hfy.
  pose proof (fun c => proj1 (load_data_columns _ _ _ _ _ _ c Hload)) as Hcols.
  pose proof (plot_df_outcome df x_col y_col) as Hp. cbv zeta in Hp.
  assert (filter (fun c => ¬ c ∈ columns df) [x_col; y_col; "county_state"] = []) as Hall.
  { rewrite !filter_cons, filter_nil.
    rewrite !decide_False; [done|intros H; apply H, Hcols; tauto..]. }
  rewrite Hall in Hp.
  rewrite (scatter_slope_distinct _ _ _ _ Hx Hy Hne Hfx Hfy Hp). cbn [rows].
  assert (filter (fun r => complete [x_col; y_col; "county_state"] r) (rows df) = []) as ->; [|done].
  apply filter_none. eapply Forall_impl; [exact Hnone|].
  intros r Hr. cbv beta in Hr |- *. rewrite complete_three.
  intros (? & ? & ?). by destruct Hr as [?|[?|?]].
Qed.

Lemma scatter_raises_without_complete_rows_witness :
  ∃ df gdf cols,
    load_data sample_float nameless_csv sample_shp = Ok (df, gdf, cols)
    ∧ scatter_slope df "gdp" centrality = Raise zero_size.
Proof.
  eexists _, _, _. split; [vm_compute; reflexivity|].
  eapply (scatter_raises_without_complete_rows sample_float nameless_csv sample_shp).
  - vm_compute. reflexivity.
  - by_compute.
  - by_compute.
  - done.
  - by_compute.
  - by_compute.
  - by_compute.
Defined.

(** ** The Choropleth tab, from the files to the map *)

Lemma string_prefix_app (n h : string) :
  String.prefix n h = true ↔ ∃ post, h = n ++ post.
Proof.
  revert h. induction n as [|a n IH]; intros h.
  - split; [intros _; by exists h | by destruct h].
  - destruct h as [|b h]; cbn [String.prefix].
    + split; [done | by intros [post H]].
    + destruct (Ascii.ascii_dec a b) as [->|Hne].
      * rewrite IH. split; intros [post H]; exists post.
        -- change (String b h = String b (n ++ post)). by rewrite H.
        -- change (String b h = String b (n ++ post)) in H. by injection H.
      * split; [done|]. intros [post H].
        change (String b h = String a (n ++ post)) in H. injection H as -> _. done.
Qed.

(** X16. The placeholder check is a substring test: [needle in hay] holds
    exactly when [hay] is some text, then [needle], then some text. *)
Theorem coming_soon_check_is_a_substring_test (needle hay : string) :
  contains needle hay = true ↔ ∃ pre post, hay = pre ++ needle ++ post.
Proof.
  induction hay as [|a hay IH]; cbn [contains].
  - rewrite orb_false_r, string_prefix_app. split.
    + intros [post H]. by exists "", post.
    + intros (pre & post & H). destruct pre as [|b pre]; [by exists post|].
      change ("" = String b (pre ++ needle ++ post)) in H. done.
  - rewrite orb_true_iff, string_prefix_app, IH. split.
    + intros [[post H]|(pre & post & H)].
      * by exists "", post.
      * exists (String a pre), post.
        change (String a hay = String a (pre ++ needle ++ post)). by rewrite H.
    + intros (pre & post & H). destruct pre as [|b pre].
      * left. by exists post.
      * right. exists pre, post.
        change (String a hay = String b (pre ++ needle ++ post)) in H. by injection H.
Qed.






Lemma merge_left_inv left right on merged :
  merge_left left right on = Ok merged → on ∈ columns left ∧ on ∈ columns right.
Proof.
  unfold merge_left, has_column. do 2 case_bool_decide; done.
Qed.








Lemma length_bind_ge {A B : Type} (f : A → list B) (l : list A) :
  (∀ x, 1 ≤ length (f x)) → length l ≤ length (l ≫= f).
Proof.
  intros Hf. induction l as [|x l IH]; [done|]. csimpl. rewrite length_app.
  specialize (Hf x). lia.
Qed.

Lemma length_bind_one {A B : Type} (f : A → list B) (l : list A) :
  (∀ x, length (f x) = 1) → length (l ≫= f) = length l.
Proof.
  intros Hf. induction l as [|x l IH]; [done|]. csimpl. rewrite length_app, IH, Hf. done.
Qed.

Lemma filter_unique_key {A : Type} (f : A → cell) (k : cell) (l : list A) :
  NoDup (f <$> l) → length (filter (fun r => k = f r) l) ≤ 1.
Proof.
  induction l as [|r l IH]; [intros _; rewrite filter_nil; cbn [length]; lia|].
  rewrite fmap_cons, NoDup_cons. intros [Hr Hnd].
  rewrite filter_cons. case_decide as Hk; [|by apply IH].
  assert (filter (fun r => k = f r) l = []) as ->; [|done].
  destruct (filter _ l) as [|r' rest] eqn:E; [done|]. exfalso. apply Hr.
  assert (r' ∈ filter (fun r => k = f r) l) as Hf by (rewrite E; left).
  apply list_elem_of_filter in Hf as [Hk' Hin]. apply list_elem_of_fmap.
  exists r'. split; [congruence | done].
Qed.

(** X20. The left join keeps every geometry: the merged frame has at least as
    many rows as the geometry frame. When no two records share a GEOID it has
    exactly as many, and the Joiner returns at most one row per geometry. *)
Theorem unique_records_give_one_row_per_geometry df gdf merged :
  merge_left gdf df "GEOID" = Ok merged →
  length (rows gdf) ≤ length (rows merged)
  ∧ (NoDup ((fun r => at_ r "GEOID") <$> rows df) →
     length (rows merged) = length (rows gdf)
     ∧ ∀ key a s, joiner key (start df gdf) = Ok (a, s) →
                  length (rows (frame_at s a)) ≤ length (rows gdf)).
Proof.
  intros Hm. pose proof Hm as Hm'. apply merge_left_inv in Hm' as [Hg Hd].
  rewrite merge_left_Ok in Hm by done. apply Ok_inj in Hm.
  assert (rows merged =
          (l ← rows gdf;
           match filter (fun r => at_ l "GEOID" = at_ r "GEOID") (rows df) with
           | [] => [merged_row gdf df "GEOID" l None]
           | ms => merged_row gdf df "GEOID" l ∘ Some <$> ms
           end)) as Hrows by (by rewrite <- Hm).
  split.
  - rewrite Hrows. apply length_bind_ge. intros g.
    destruct (filter _ (rows df)); [done|]. rewrite length_fmap. cbn [length]. lia.
  - intros Hnd.
    assert (length (rows merged) = length (rows gdf)) as Hlen.
    { rewrite Hrows. apply length_bind_one. intros g.
      pose proof (filter_unique_key (fun r => at_ r "GEOID") (at_ g "GEOID") (rows df) Hnd)
        as Hu.
      destruct (filter _ (rows df)) as [|m ms]; [done|].
      rewrite length_fmap. cbn [length] in *. lia. }
    split; [done|]. intros key a s Hj.
    rewrite (joiner_unfold key _ df gdf) in Hj by done.
    rewrite merge_left_Ok in Hj by done. rewrite Hm in Hj.
    cbv beta iota zeta delta [mbind result_bind] in Hj.
    destruct (dropna (Some [key]) merged) as [out|] eqn:Eo; [|done].
    apply Ok_inj, pair_equal_spec in Hj as [<- <-].
    unfold frame_at. cbn [frames start length app].
    change ([df; gdf; merged; out] !! 3) with (Some out). cbn [default from_option id].
    unfold dropna in Eo. destruct (filter _ [key]); [|done].
    apply Ok_inj in Eo as <-. cbn [rows]. rewrite <- Hlen. apply length_filter.
Qed.

Lemma unique_records_give_one_row_per_geometry_witness :
  ∃ merged,
    merge_left map_gdf map_df "GEOID" = Ok merged
    ∧ length (rows map_gdf) ≤ length (rows merged)
    ∧ (NoDup ((fun r => at_ r "GEOID") <$> rows map_df) →
       length (rows merged) = length (rows map_gdf)
       ∧ ∀ key a s, joiner key (start map_df map_gdf) = Ok (a, s) →
                    length (rows (frame_at s a)) ≤ length (rows map_gdf)).
Proof.
  eexists. split; [vm_compute; reflexivity|].
  apply (unique_records_give_one_row_per_geometry map_df map_gdf).
  vm_compute. reflexivity.
Defined.



